(** * AI Design Studio (React frontend): a shallow embedding of the
      client-side workflow, the style mixer and the gallery manager.

    Sources embedded here:
    - [frontend/src/App.js]                 (upload, submit, reset)
    - [frontend/src/components/StyleMixer]  (entries, weights, normalisation)
    - [frontend/src/components/Gallery.jsx] (list, delete, selection)
    - [frontend/src/services/api.js]        (the axios operations)

    A React function component is a render function over its state slots;
    every handler is a closure over the values of one render.  A handler is
    embedded as a function from that render snapshot to a command tree
    ([Proc]): state setters, synchronous browser effects, prop callbacks and
    awaited API calls, in program order.  [console.log] / [console.error]
    calls are left out: they read and write no component state. *)

From Stdlib Require Import ZArith QArith Qabs Qpower String List Bool Lia Lqa.
From Stdlib Require Import PrimFloat FloatOps SpecFloat FloatAxioms.
From stdpp Require Import base option list strings pretty gmap.
Import ListNotations.

Local Open Scope Z_scope.
Local Open Scope string_scope.
Local Open Scope list_scope.
(* [+:+] is string concatenation, [++] list concatenation. *)

(* A JavaScript number is an IEEE 754 binary64 value, as [PrimFloat.float]
   is; a decimal literal denotes the nearest such value in both languages. *)
Set Warnings "-inexact-float".

(** ** Values exchanged with the browser and the backend *)

(** A [File] picked in the dropzone; only its identity matters here. *)
Record File := mkFile { file_name : string }.

(** The string returned by [URL.createObjectURL]: the n-th blob URL minted
    by the document. *)
Definition ObjectURL := nat.

(** Settlement of an axios promise: it resolves with a response or rejects
    with an [Error] whose [message] the handlers read.  Network errors,
    timeouts and non-2xx statuses all reject. *)
Inductive Outcome (R : Type) : Type :=
| Resolved (response : R)
| Rejected (message : string).
Arguments Resolved {R} response.
Arguments Rejected {R} message.

(** [response.data.data] of [POST /api/upload]. *)
Record UploadResponse := mkUploadResponse {
  up_filename : string;
  up_path : string
}.

(** [response.data] of [POST /api/transfer] and [POST /api/quick-transfer]:
    [{ success, data: { output_image, processing_time } }]. *)
Record TransferResponse := mkTransferResponse {
  success : bool;
  output_image : string;
  processing_time : string
}.

(** The JSON body of a transfer request.  [quickTransfer] is called with an
    object that has no [quality] key. *)
Record TransferData := mkTransferData {
  content_image : string;
  style_image : string;
  intensity : float;
  quality_field : option string
}.

(** An entry of [response.data.data.images] of [GET /api/gallery]. *)
Record GalleryImage := mkGalleryImage {
  g_filename : string;
  g_created : string
}.

#[global] Instance GalleryImage_eq_dec : EqDecision GalleryImage.
Proof. solve_decision. Defined.

Record GalleryResponse := mkGalleryResponse {
  gal_success : bool;
  gal_images : list GalleryImage
}.

(** The operations of [services/api.js] that the handlers await, indexed by
    the type of what the promise resolves to. *)
Inductive Api : Type -> Type :=
| checkHealth : Api unit
| uploadImage (file : File) : Api UploadResponse
| styleTransfer (data : TransferData) : Api TransferResponse
| quickTransfer (data : TransferData) : Api TransferResponse
| getGallery : Api GalleryResponse
| deleteFromGallery (filename : string) : Api unit.

(** Synchronous calls into the browser, indexed by their result. *)
Inductive Browser : Type -> Type :=
| createObjectURL (file : File) : Browser ObjectURL
| revokeObjectURL (url : ObjectURL) : Browser unit
| dateNow : Browser Z
| windowConfirm (message : string) : Browser bool
| windowAlert (message : string) : Browser unit.

(** ** Handlers as command trees *)

Section Proc.
(** [U]: the state setters of the component; [O]: the calls it makes to
    the callbacks it received as props. *)
Context {U O : Type}.

Inductive Proc : Type :=
| Done
| SetState (u : U) (k : Proc)
| Sync {R : Type} (e : Browser R) (k : R -> Proc)
| Emit (o : O) (k : Proc)
| Await {R : Type} (req : Api R) (k : Outcome R -> Proc).

(** Sequencing: [p >>> q] runs [q] where [p] falls off its end. *)
Fixpoint seq (p q : Proc) : Proc :=
  match p with
  | Done => q
  | SetState u k => SetState u (seq k q)
  | Sync e k => Sync e (fun r => seq (k r) q)
  | Emit o k => Emit o (seq k q)
  | Await req k => Await req (fun r => seq (k r) q)
  end.

(** [try { r = await req; body(r) } catch (err) { handler(err.message) }
    finally { fin }] where only the awaited promise can throw. *)
Definition try_await {R} (req : Api R) (body : R -> Proc)
    (catch : string -> Proc) (finally : Proc) : Proc :=
  Await req (fun o =>
    seq match o with
        | Resolved r => body r
        | Rejected message => catch message
        end finally).
End Proc.
Arguments Proc : clear implicits.

Notation "p >>> q" := (seq p q) (at level 60, right associativity).

(** ** The document around a component *)

(** What a handler did that is visible outside the component state. *)
Inductive Event (O : Type) : Type :=
| Requested {R : Type} (req : Api R)
| Alerted (message : string)
| Called (o : O).
Arguments Requested {O R} req.
Arguments Alerted {O} message.
Arguments Called {O} o.

(** What the browser answers to the synchronous calls during one handler
    activation: the user's answer to [window.confirm] and the value of
    [Date.now()]. *)
Record Ambient := mkAmbient {
  confirmed : bool;
  clock : Z
}.

(** How the backend settles each request. *)
Definition Network := forall R, Api R -> Outcome R.

Section Run.
Context {S U O : Type}.
(** [apply u st]: the state after the setter call [u]. *)
Variable apply : U -> S -> S.

(** Component state, the blob URLs that are live in the document, and the
    trace of outside-visible events (latest last). *)
Record World := mkWorld {
  state : S;
  live_urls : gset ObjectURL;
  next_url : ObjectURL;
  trace : list (Event O)
}.

Definition browser_call {R} (amb : Ambient) (e : Browser R) (w : World) : R * World :=
  match e in Browser R return R * World with
  | createObjectURL _ =>
      (next_url w,
       mkWorld (state w) ({[ next_url w ]} ∪ live_urls w) (Datatypes.S (next_url w)) (trace w))
  | revokeObjectURL url =>
      (tt, mkWorld (state w) (live_urls w ∖ {[ url ]}) (next_url w) (trace w))
  | dateNow => (clock amb, w)
  | windowConfirm _ => (confirmed amb, w)
  | windowAlert message =>
      (tt, mkWorld (state w) (live_urls w) (next_url w) (trace w ++ [Alerted message]))
  end.

Definition record (ev : Event O) (w : World) : World :=
  mkWorld (state w) (live_urls w) (next_url w) (trace w ++ [ev]).

Definition write (u : U) (w : World) : World :=
  mkWorld (apply u (state w)) (live_urls w) (next_url w) (trace w).

(** One handler run from call to completion, every awaited request
    settling (as [net] says) before anything else happens. *)
Fixpoint run (amb : Ambient) (net : Network) (p : Proc U O) (w : World) : World :=
  match p with
  | Done => w
  | SetState u k => run amb net k (write u w)
  | Sync e k => let '(r, w') := browser_call amb e w in run amb net (k r) w'
  | Emit o k => run amb net k (record (Called o) w)
  | Await req k => run amb net (k (net _ req)) (record (Requested req) w)
  end.
End Run.
Arguments World : clear implicits.

(** ** [App.js]: the transfer workflow *)

Module App.

(** [{ filename, path, preview }], the value of the [contentImage] and
    [styleImage] slots once an upload has completed. *)
Record UploadedImage := mkUploaded {
  filename : string;
  path : string;
  preview : ObjectURL
}.

(** [{ filename, url, processingTime }], the value of [resultImage]. *)
Record ResultImage := mkResult {
  result_filename : string;
  url : string;
  processingTime : string
}.

(** The [useState] slots of [App], in declaration order. *)
Record State := mkState {
  backendStatus : string;
  contentImage : option UploadedImage;
  styleImage : option UploadedImage;
  resultImage : option ResultImage;
  isProcessing : bool;
  processingProgress : Z;
  styleIntensity : float;
  quality : string;
  error : option string;
  showGallery : bool
}.

Inductive Setter :=
| setBackendStatus (v : string)
| setContentImage (v : option UploadedImage)
| setStyleImage (v : option UploadedImage)
| setResultImage (v : option ResultImage)
| setIsProcessing (v : bool)
| setProcessingProgress (v : Z)
| setStyleIntensity (v : float)
| setQuality (v : string)
| setError (v : option string)
| setShowGallery (v : bool).

Definition apply (u : Setter) (st : State) : State :=
  match u with
  | setBackendStatus v =>
      mkState v (contentImage st) (styleImage st) (resultImage st)
        (isProcessing st) (processingProgress st) (styleIntensity st)
        (quality st) (error st) (showGallery st)
  | setContentImage v =>
      mkState (backendStatus st) v (styleImage st) (resultImage st)
        (isProcessing st) (processingProgress st) (styleIntensity st)
        (quality st) (error st) (showGallery st)
  | setStyleImage v =>
      mkState (backendStatus st) (contentImage st) v (resultImage st)
        (isProcessing st) (processingProgress st) (styleIntensity st)
        (quality st) (error st) (showGallery st)
  | setResultImage v =>
      mkState (backendStatus st) (contentImage st) (styleImage st) v
        (isProcessing st) (processingProgress st) (styleIntensity st)
        (quality st) (error st) (showGallery st)
  | setIsProcessing v =>
      mkState (backendStatus st) (contentImage st) (styleImage st) (resultImage st)
        v (processingProgress st) (styleIntensity st)
        (quality st) (error st) (showGallery st)
  | setProcessingProgress v =>
      mkState (backendStatus st) (contentImage st) (styleImage st) (resultImage st)
        (isProcessing st) v (styleIntensity st)
        (quality st) (error st) (showGallery st)
  | setStyleIntensity v =>
      mkState (backendStatus st) (contentImage st) (styleImage st) (resultImage st)
        (isProcessing st) (processingProgress st) v
        (quality st) (error st) (showGallery st)
  | setQuality v =>
      mkState (backendStatus st) (contentImage st) (styleImage st) (resultImage st)
        (isProcessing st) (processingProgress st) (styleIntensity st)
        v (error st) (showGallery st)
  | setError v =>
      mkState (backendStatus st) (contentImage st) (styleImage st) (resultImage st)
        (isProcessing st) (processingProgress st) (styleIntensity st)
        (quality st) v (showGallery st)
  | setShowGallery v =>
      mkState (backendStatus st) (contentImage st) (styleImage st) (resultImage st)
        (isProcessing st) (processingProgress st) (styleIntensity st)
        (quality st) (error st) v
  end.

(** The arguments of the [useState] calls. *)
Definition initial : State :=
  mkState "checking" None None None false 0 1.0%float "standard" None false.

(** [App] is the root component: it calls no prop callback. *)
Definition Handler := Proc Setter Empty_set.

Section Handlers.
(** [process.env.REACT_APP_API_URL || 'http://localhost:5000'] *)
Variable API_BASE_URL : string.

(** [api.getImageUrl] *)
Definition getImageUrl (name : string) : string :=
  API_BASE_URL +:+ "/api/image/" +:+ name.

(** The handlers take the render they were created in. *)
Variable render : State.

Definition checkBackendHealth : Handler :=
  try_await checkHealth
    (fun _ => SetState (setBackendStatus "online") Done)
    (fun _ => SetState (setBackendStatus "offline") Done)
    Done.

Definition handleContentUpload (file : File) : Handler :=
  SetState (setError None)
    (try_await (uploadImage file)
       (fun response =>
          Sync (createObjectURL file) (fun blob =>
            SetState (setContentImage
              (Some (mkUploaded (up_filename response) (up_path response) blob)))
              Done))
       (fun message =>
          SetState (setError (Some ("Failed to upload content image: " +:+ message))) Done)
       Done).

Definition handleStyleUpload (file : File) : Handler :=
  SetState (setError None)
    (try_await (uploadImage file)
       (fun response =>
          Sync (createObjectURL file) (fun blob =>
            SetState (setStyleImage
              (Some (mkUploaded (up_filename response) (up_path response) blob)))
              Done))
       (fun message =>
          SetState (setError (Some ("Failed to upload style image: " +:+ message))) Done)
       Done).

Definition handleStyleTransfer (quickMode : bool) : Handler :=
  match contentImage render, styleImage render with
  | Some content, Some style =>
      SetState (setIsProcessing true)
        (SetState (setError None)
           (SetState (setProcessingProgress 0)
              (try_await
                 (if quickMode
                  then quickTransfer
                         (mkTransferData (path content) (path style)
                            (styleIntensity render) None)
                  else styleTransfer
                         (mkTransferData (path content) (path style)
                            (styleIntensity render) (Some (quality render))))
                 (fun response =>
                    if success response
                    then SetState (setResultImage
                           (Some (mkResult (output_image response)
                                    (getImageUrl (output_image response))
                                    (processing_time response))))
                           (SetState (setProcessingProgress 100) Done)
                    else Done)
                 (fun message =>
                    SetState (setError (Some ("Style transfer failed: " +:+ message))) Done)
                 (SetState (setIsProcessing false) Done))))
  | _, _ =>
      SetState (setError (Some "Please upload both content and style images")) Done
  end.

Definition handleReset : Handler :=
  SetState (setContentImage None)
    (SetState (setStyleImage None)
       (SetState (setResultImage None)
          (SetState (setError None)
             (SetState (setProcessingProgress 0) Done)))).

(** The [disabled] attribute of both transfer buttons. *)
Definition transferDisabled : bool :=
  negb (bool_decide (is_Some (contentImage render)))
  || negb (bool_decide (is_Some (styleImage render)))
  || isProcessing render.
End Handlers.

(** A fresh document showing [st]: no blob URL minted, nothing traced. *)
Definition world (st : State) : World State Empty_set := mkWorld st ∅ 0%nat [].

(** No dialog is answered and no clock is read by the handlers of [App]. *)
Definition ambient : Ambient := mkAmbient false 0.

(** The message of the guard of [handleStyleTransfer]. *)
Definition missing_images_message : string :=
  "Please upload both content and style images".

(** The request [handleStyleTransfer] builds from the render [st]. *)
Definition transfer_request (quickMode : bool) (content style : UploadedImage) (st : State)
  : Api TransferResponse :=
  if quickMode
  then quickTransfer (mkTransferData (path content) (path style) (styleIntensity st) None)
  else styleTransfer (mkTransferData (path content) (path style) (styleIntensity st)
                        (Some (quality st))).

(** Calling [handleStyleTransfer(quickMode)] in the render of [st] and
    letting it run to its end. *)
Definition submit (base : string) (net : Network) (quickMode : bool) (st : State)
  : World State Empty_set :=
  run apply ambient net (handleStyleTransfer base st quickMode) (world st).

End App.

(** ** [StyleMixer]: weighted style entries *)

Module StyleMixer.

(** [{ id, weight, name }].  An [id] is [1] or a value of [Date.now()]
    (an integer number of milliseconds). *)
Record Style := mkStyle {
  id : Z;
  weight : float;
  name : string
}.

(** The component has the single slot [styles]. *)
Abbreviation State := (list Style).

Inductive Setter :=
| setStyles (v : list Style).

Definition apply (u : Setter) (st : State) : State :=
  match u with
  | setStyles v => v
  end.

(** Calls of the [onMixStyles] prop. *)
Inductive PropCall :=
| onMixStyles (normalized : list Style).

Definition Handler := Proc Setter PropCall.

Definition initial : State := [mkStyle 1 0.5%float "Style 1"].

Section Handlers.
(** [styles] as the handlers see it. *)
Variable styles : list Style.

Definition addStyle : Handler :=
  if bool_decide (length styles < 4)%nat then
    Sync dateNow (fun now =>
      SetState (setStyles
        (styles ++ [mkStyle now 0.5%float ("Style " +:+ pretty (length styles + 1)%nat)]))
        Done)
  else Done.

Definition removeStyle (id0 : Z) : Handler :=
  if bool_decide (1 < length styles)%nat then
    SetState (setStyles (filter (fun s => id s <> id0) styles)) Done
  else Done.

(** [parsed] is [parseFloat(weight)], [weight] being the slider's value
    string. *)
Definition updateWeight (id0 : Z) (parsed : float) : Handler :=
  SetState (setStyles
    (map (fun s => if bool_decide (id s = id0)
                   then mkStyle (id s) parsed (name s) else s) styles))
    Done.

Definition normalizeWeights : list Style :=
  let total := fold_left (fun sum s => (sum + weight s)%float) styles 0%float in
  map (fun s => mkStyle (id s) (weight s / total)%float (name s)) styles.

Definition handleMix : Handler :=
  Emit (onMixStyles normalizeWeights) Done.
End Handlers.

(** The values [parseFloat] yields for the weight slider
    ([min="0" max="1" step="0.1"]). *)
Definition sliderWeights : list float :=
  [0; 0.1; 0.2; 0.3; 0.4; 0.5; 0.6; 0.7; 0.8; 0.9; 1]%float.

(** The exact rational a finite binary64 value stands for. *)
Definition exact (x : float) : option Q :=
  match Prim2SF x with
  | S754_zero _ => Some 0%Q
  | S754_finite sign m e =>
      let mag := match e with
                 | Z0 => Zpos m # 1
                 | Zpos k => (Zpos m * 2 ^ Zpos k) # 1
                 | Zneg k => Zpos m # (2 ^ k)
                 end in
      Some (if sign then Qopp mag else mag)
  | S754_infinity _ | S754_nan => None
  end.

(** The exact sum of a list of numbers, when all are finite (as a reduced
    fraction). *)
Fixpoint exact_sum (xs : list float) : option Q :=
  match xs with
  | [] => Some 0%Q
  | x :: rest =>
      match exact x, exact_sum rest with
      | Some q, Some r => Some (Qred (q + r))
      | _, _ => None
      end
  end.

(** [x] is a finite number within [tol] of [target]. *)
Definition within (tol target : Q) (x : option Q) : bool :=
  match x with
  | Some q => Qle_bool (Qabs (q - target)) tol
  | None => false
  end.

(** [2 ^ e] as a rational, for any integer [e], and the value of the
    mantissa [m] at the exponent [e]: [exact] of a positive finite number
    with mantissa [m] and exponent [e] is [value m e]. *)
Definition pow2 (e : Z) : Q := (2 ^ e)%Q.

Definition value (m e : Z) : Q := (inject_Z m * pow2 e)%Q.

(** [x] is a finite number and its exact value is within [tol] of
    [target]. *)
Definition close_to (tol : Q) (x : float) (target : Q) : Prop :=
  exists q, exact x = Some q /\ (Qabs (q - target) <= tol)%Q.

(** The length of a list as a rational. *)
Definition lengthQ {A} (l : list A) : Q := inject_Z (Z.of_nat (length l)).

(** A fresh document showing the mixer with [st]. *)
Definition world (st : State) : World State PropCall := mkWorld st ∅ 0%nat [].

(** The user's actions on the mixer: "Add Style" at clock value [now], the
    remove button of the entry [id0], a slider moved to [parsed], "Mix
    Styles". *)
Inductive Action :=
| add (now : Z)
| remove (id0 : Z)
| slide (id0 : Z) (parsed : float)
| mix.

Definition handler (a : Action) (styles : list Style) : Handler :=
  match a with
  | add _ => addStyle styles
  | remove id0 => removeStyle styles id0
  | slide id0 parsed => updateWeight styles id0 parsed
  | mix => handleMix styles
  end.

Definition ambient (a : Action) : Ambient :=
  mkAmbient false match a with add now => now | _ => 0 end.

(** The handlers of the mixer await nothing. *)
Definition offline : Network := fun _ _ => Rejected "Network Error".

(** One action: its handler, created in the render of the current state,
    runs to its end. *)
Definition perform_in (a : Action) (w : World State PropCall) : World State PropCall :=
  run apply (ambient a) offline (handler a (state w)) w.

Definition perform (a : Action) (styles : State) : State :=
  state (perform_in a (world styles)).

(** What one action passes to [onMixStyles]. *)
Definition emitted (a : Action) (styles : State) : list (Event PropCall) :=
  trace (perform_in a (world styles)).

(** States reached from the initial one when every "Add Style" happens at a
    clock value that is not the id of a current entry. *)
Inductive reachable : State -> Prop :=
| reach_initial : reachable initial
| reach_add st now :
    reachable st -> now ∉ map id st -> reachable (perform (add now) st)
| reach_remove st id0 : reachable st -> reachable (perform (remove id0) st)
| reach_slide st id0 parsed : reachable st -> reachable (perform (slide id0 parsed) st)
| reach_mix st : reachable st -> reachable (perform mix st).

(** *** Checking the arithmetic of [normalizeWeights] *)

(** A positive weight of the range the entries have, [0 < w && w <= 1] as
    JavaScript compares numbers: any binary64 value in (0, 1]. *)
Definition positive_up_to_one (w : float) : bool := ((0 <? w) && (w <=? 1))%float.

(** The positive values of the weight slider. *)
Definition positiveSliderWeights : list float :=
  [0.1; 0.2; 0.3; 0.4; 0.5; 0.6; 0.7; 0.8; 0.9; 1]%float.

(** [normalizeWeights] on the weights alone. *)
Definition normalized (weights : list float) : list float :=
  let total := fold_left (fun sum w => (sum + w)%float) weights 0%float in
  map (fun w => (w / total)%float) weights.

(** The formula of the specification,
    [normalizedWeight_i = weight_i / sum(weight_j)], in exact rational
    arithmetic; defined when every weight is finite and the sum is not
    zero.  [normalized] is compared with it below. *)
Definition normalized_exactly (weights : list float) : option (list Q) :=
  match exact_sum weights with
  | Some total =>
      if Qeq_bool total 0 then None
      else mapM (fun w => (fun q => Qred (q / total)) <$> exact w) weights
  | None => None
  end.

(** The exact sum of a list of rationals. *)
Definition Qsum (qs : list Q) : Q := fold_right Qplus 0%Q qs.

(** The tolerance of the spec, [1e-6]. *)
Definition tolerance : Q := 1 # 1000000.

Fixpoint all_within (tol : Q) (targets : list Q) (xs : list float) : bool :=
  match targets, xs with
  | [], [] => true
  | t :: targets, x :: xs => within tol t (exact x) && all_within tol targets xs
  | _, _ => false
  end.

(** A three-entry blend with weights 0.5, 0.3 and 0.2. *)
Definition blend : State :=
  [ mkStyle 1 0.5%float "Style 1";
    mkStyle 1700000000000 0.3%float "Style 2";
    mkStyle 1700000004000 0.2%float "Style 3" ].

(** Four entries, added at distinct clock values. *)
Definition full : State :=
  perform (add 1700000009000)
    (perform (add 1700000004000) (perform (add 1700000000000) initial)).

End StyleMixer.

(** ** [Gallery.jsx]: the cached listing and the preview selection *)

Module Gallery.

Record State := mkState {
  images : list GalleryImage;
  loading : bool;
  selectedImage : option GalleryImage
}.

Inductive Setter :=
| setImages (v : list GalleryImage)
| setLoading (v : bool)
| setSelectedImage (v : option GalleryImage).

Definition apply (u : Setter) (st : State) : State :=
  match u with
  | setImages v => mkState v (loading st) (selectedImage st)
  | setLoading v => mkState (images st) v (selectedImage st)
  | setSelectedImage v => mkState (images st) (loading st) v
  end.

(** Calls of the [onClose] prop. *)
Inductive PropCall :=
| onClose.

Definition Handler := Proc Setter PropCall.

Definition initial : State := mkState [] true None.

Section Handlers.
(** The handlers take the render they were created in. *)
Variable render : State.

Definition fetchGallery : Handler :=
  SetState (setLoading true)
    (try_await getGallery
       (fun response =>
          if gal_success response
          then SetState (setImages (gal_images response)) Done
          else Done)
       (fun _ => Done)
       (SetState (setLoading false) Done)).

Definition handleDelete (name : string) : Handler :=
  Sync (windowConfirm "Are you sure you want to delete this image?") (fun ok =>
    if ok : bool then
      try_await (deleteFromGallery name)
        (fun _ =>
           SetState (setImages (filter (fun img => g_filename img <> name) (images render)))
             (SetState (setSelectedImage None) Done))
        (fun _ => Sync (windowAlert "Failed to delete image") (fun _ => Done))
        Done
    else Done).

(** [onClick] of a gallery tile. *)
Definition selectImage (image : GalleryImage) : Handler :=
  SetState (setSelectedImage (Some image)) Done.

(** [onClick] of the preview overlay and of its close button. *)
Definition closePreview : Handler :=
  SetState (setSelectedImage None) Done.
End Handlers.

(** A fresh document showing the gallery with [st]. *)
Definition world (st : State) : World State PropCall := mkWorld st ∅ 0%nat [].

(** The user confirms the dialog of [handleDelete]. *)
Definition yes : Ambient := mkAmbient true 0.

(** [handleDelete(name)] called in the render of [st], the dialog confirmed,
    the request settling as [net] says before any other event. *)
Definition confirmed_delete (net : Network) (name : string) (st : State)
  : World State PropCall :=
  run apply yes net (handleDelete st name) (world st).

End Gallery.

(** ** Handlers that release no blob URL *)

Definition is_revoke {R} (e : Browser R) : bool :=
  match e with
  | revokeObjectURL _ => true
  | _ => false
  end.

(** No path through [p] calls [URL.revokeObjectURL]. *)
Fixpoint never_revokes {U O} (p : Proc U O) : Prop :=
  match p with
  | Done => True
  | SetState _ k | Emit _ k => never_revokes k
  | Sync e k => is_revoke e = false /\ forall r, never_revokes (k r)
  | Await _ k => forall outcome, never_revokes (k outcome)
  end.

(** ** The event loop: handlers interleaved at their [await]s *)

Section EventLoop.
Context {S U O C : Type}.
Variable apply : U -> S -> S.
(** [controls c st]: the handler bound to the control [c] in the render of
    [st]; [None] when [c] is not rendered there or is rendered [disabled]
    (a disabled control dispatches no event). *)
Variable controls : C -> S -> option (Proc U O).

(** A request that has been sent and the rest of the handler that awaits
    it. *)
Record Pending := mkPending {
  p_type : Type;
  p_request : Api p_type;
  p_resume : Outcome p_type -> Proc U O
}.

Record System := mkSystem {
  doc : World S O;
  in_flight : list Pending
}.

(** Run [p] up to its next [await]; there the request goes out and the
    handler is suspended. *)
Fixpoint exec (amb : Ambient) (p : Proc U O) (sys : System) : System :=
  match p with
  | Done => sys
  | SetState u k => exec amb k (mkSystem (write apply u (doc sys)) (in_flight sys))
  | Sync e k =>
      let '(r, w') := browser_call amb e (doc sys) in
      exec amb (k r) (mkSystem w' (in_flight sys))
  | Emit o k => exec amb k (mkSystem (record (Called o) (doc sys)) (in_flight sys))
  | Await req k =>
      mkSystem (record (Requested req) (doc sys)) (in_flight sys ++ [mkPending _ req k])
  end.

(** One turn of the loop: a user event on an enabled control, or the
    settlement of some request in flight. *)
Inductive step : System -> System -> Prop :=
| step_event c amb p sys :
    controls c (state (doc sys)) = Some p ->
    step sys (exec amb p sys)
| step_settle i item outcome amb sys :
    in_flight sys !! i = Some item ->
    step sys (exec amb (p_resume item outcome)
                (mkSystem (doc sys) (delete i (in_flight sys)))).

(** A scripted turn: the user acts on a control, or the request at
    position [i] among those in flight (oldest first) settles as the backend
    [net] decides.  No handler here opens a dialog or reads the clock after
    an [await], so the resumed rest runs with a default [Ambient]. *)
Inductive Turn :=
| user (c : C) (amb : Ambient)
| settled (i : nat).

Definition turn (net : Network) (t : Turn) (sys : System) : System :=
  match t with
  | user c amb =>
      match controls c (state (doc sys)) with
      | Some p => exec amb p sys
      | None => sys
      end
  | settled i =>
      match in_flight sys !! i with
      | Some item =>
          exec (mkAmbient false 0) (p_resume item (net _ (p_request item)))
            (mkSystem (doc sys) (delete i (in_flight sys)))
      | None => sys
      end
  end.

(** Play a script of turns, first turn first. *)
Definition play (net : Network) (script : list Turn) (sys : System) : System :=
  fold_left (fun s t => turn net t s) script sys.
End EventLoop.
Arguments Pending : clear implicits.
Arguments System : clear implicits.
Arguments Turn : clear implicits.

(** Every blob URL minted so far is still live. *)
Definition all_live {S O} (w : World S O) : Prop :=
  forall url : ObjectURL, (url < next_url w)%nat -> url ∈ live_urls w.

(** However its request settles, the suspended handler releases nothing. *)
Definition resumes_without_revoking {U O} (item : Pending U O) : Prop :=
  forall outcome, never_revokes (p_resume item outcome).

(** Requests that carry out a style transfer. *)
Definition is_transfer {R} (req : Api R) : bool :=
  match req with
  | styleTransfer _ | quickTransfer _ => true
  | _ => false
  end.

Definition count_transfers {U O} (items : list (Pending U O)) : nat :=
  length (filter (fun item => is_transfer (p_request item) = true) items).

Definition transfers_in_flight {S U O} (sys : System S U O) : nat :=
  count_transfers (in_flight sys).

(** ** The controls [App] renders *)

Module AppUI.
Import App.

Inductive QualityOption := fast | standard | high.

(** The [value] attribute of each [<option>]. *)
Definition option_value (q : QualityOption) : string :=
  match q with
  | fast => "fast"
  | standard => "standard"
  | high => "high"
  end.

Inductive Control :=
| transferButton (quickMode : bool)
| contentDropzone (file : File)
| styleDropzone (file : File)
| resetAllButton
| newButton
| intensitySlider (parsed : float)
| qualitySelect (q : QualityOption)
| galleryToggle
| galleryClose.

(** A range input keeps its value between [min="0.1"] and [max="2.0"]. *)
Definition intensity_in_range (v : float) : bool :=
  (0.1 <=? v)%float && (v <=? 2.0)%float.

(** The JSX of [App]: which handler each control is bound to.  The
    workspace is rendered only while the gallery is hidden; the uploaders,
    the slider, the select and the buttons are [disabled] while
    [isProcessing]. *)
Definition controls (base : string) (c : Control) (render : State) : option Handler :=
  match c with
  | galleryToggle => Some (SetState (setShowGallery (negb (showGallery render))) Done)
  | galleryClose =>
      if showGallery render then Some (SetState (setShowGallery false) Done) else None
  | _ =>
      if showGallery render then None else
      match c with
      | transferButton quickMode =>
          if transferDisabled render then None
          else Some (handleStyleTransfer base render quickMode)
      | contentDropzone file =>
          if isProcessing render then None else Some (handleContentUpload file)
      | styleDropzone file =>
          if isProcessing render then None else Some (handleStyleUpload file)
      | resetAllButton =>
          if bool_decide (is_Some (contentImage render) \/ is_Some (styleImage render)
                          \/ is_Some (resultImage render))
             && negb (isProcessing render)
          then Some handleReset else None
      | newButton =>
          if bool_decide (is_Some (resultImage render)) && negb (isProcessing render)
          then Some handleReset else None
      | intensitySlider parsed =>
          if isProcessing render then None
          else if intensity_in_range parsed
               then Some (SetState (setStyleIntensity parsed) Done) else None
      | qualitySelect q =>
          if isProcessing render then None
          else Some (SetState (setQuality (option_value q)) Done)
      | _ => None
      end
  end.

Definition AppSystem := System State Setter Empty_set.

(** The document after mounting [App]: the mount effect has called
    [checkBackendHealth]. *)
Definition boot : AppSystem :=
  exec apply ambient checkBackendHealth (mkSystem (world initial) []).

Definition reachable (base : string) (sys : AppSystem) : Prop :=
  rtc (step apply (controls base)) boot sys.

(** A transfer request whose intensity is within the slider's range. *)
Definition request_in_range (ev : Event Empty_set) : Prop :=
  match ev with
  | Requested req =>
      match req with
      | styleTransfer data | quickTransfer data =>
          intensity_in_range (intensity data) = true
      | _ => True
      end
  | _ => True
  end.

(** What resuming a suspended handler of [App] can do: it sends nothing
    further, leaves the intensity alone, and touches [isProcessing] only to
    clear it after a transfer. *)
Definition settles_quietly (item : Pending Setter Empty_set) : Prop :=
  forall outcome amb (sys : AppSystem),
    let sys' := exec apply amb (p_resume item outcome) sys in
    in_flight sys' = in_flight sys
    /\ trace (doc sys') = trace (doc sys)
    /\ styleIntensity (state (doc sys')) = styleIntensity (state (doc sys))
    /\ isProcessing (state (doc sys'))
       = if is_transfer (p_request item) then false else isProcessing (state (doc sys)).

Definition invariant (sys : AppSystem) : Prop :=
  Forall settles_quietly (in_flight sys)
  /\ transfers_in_flight sys = (if isProcessing (state (doc sys)) then 1 else 0)%nat
  /\ intensity_in_range (styleIntensity (state (doc sys))) = true
  /\ Forall request_in_range (trace (doc sys)).

End AppUI.

(** ** The controls [Gallery] renders *)

Module GalleryUI.
Import Gallery.

Inductive Control :=
| tile (image : GalleryImage)
| tileDelete (image : GalleryImage)
| previewClose
| previewDelete
| closeButton.

(** The JSX of [Gallery]: the grid is rendered once loading is over, one
    tile per cached image; the preview and its buttons while an image is
    selected. *)
Definition controls (c : Control) (render : State) : option Handler :=
  match c with
  | tile image =>
      if negb (loading render) && bool_decide (image ∈ images render)
      then Some (selectImage image) else None
  | tileDelete image =>
      if negb (loading render) && bool_decide (image ∈ images render)
      then Some (handleDelete render (g_filename image)) else None
  | previewClose =>
      if bool_decide (is_Some (selectedImage render)) then Some closePreview else None
  | previewDelete =>
      match selectedImage render with
      | Some selected => Some (handleDelete render (g_filename selected))
      | None => None
      end
  | closeButton => Some (Emit onClose Done)
  end.

Definition GallerySystem := System State Setter PropCall.

(** The document after mounting [Gallery]: the mount effect has called
    [fetchGallery]. *)
Definition boot : GallerySystem :=
  exec apply yes fetchGallery (mkSystem (world initial) []).

End GalleryUI.

(** ** Sample documents and backends *)

Module Samples.
Import App.

Definition localhost : string := "http://localhost:5000".

(** Two uploaded images and workflow states that hold both. *)
Definition cat : UploadedImage := mkUploaded "cat.png" "uploads/cat.png" 0%nat.
Definition vangogh : UploadedImage := mkUploaded "vangogh.png" "uploads/vangogh.png" 1%nat.

Definition ready : State :=
  mkState "online" (Some cat) (Some vangogh) None false 0 1.0%float "standard" None false.

(** As [ready], with the intensity slot holding [2.5]. *)
Definition overdriven : State :=
  mkState "online" (Some cat) (Some vangogh) None false 0 2.5%float "standard" None false.

(** A backend that serves every request. *)
Definition accepts : Network := fun R req =>
  match req in Api R return Outcome R with
  | checkHealth => Resolved tt
  | uploadImage file =>
      Resolved (mkUploadResponse (file_name file) ("uploads/" +:+ file_name file))
  | styleTransfer _ | quickTransfer _ =>
      Resolved (mkTransferResponse true "result_001.png" "12.3s")
  | getGallery => Resolved (mkGalleryResponse true [])
  | deleteFromGallery _ => Resolved tt
  end.

(** A backend that answers a transfer with status 200 and
    [{ success: false }]. *)
Definition refuses : Network := fun R req =>
  match req in Api R return Outcome R with
  | styleTransfer _ | quickTransfer _ => Resolved (mkTransferResponse false "" "")
  | other => accepts _ other
  end.

(** A backend that answers every request with status 500: axios rejects. *)
Definition http500 : Network := fun _ _ =>
  Rejected "Request failed with status code 500".

(** Uploading a content image twice, then "Reset All". *)
Definition replace_then_reset : list (Turn AppUI.Control) :=
  [ user (AppUI.contentDropzone (mkFile "cat.png")) ambient; settled 1%nat;
    user (AppUI.contentDropzone (mkFile "dog.png")) ambient; settled 1%nat;
    user AppUI.resetAllButton ambient ].

(** A session: upload [cat.png], upload [vangogh.png] (each upload settles
    while the health check of the mount is still out), then click "Apply
    Style Transfer". *)
Definition session : list (Turn AppUI.Control) :=
  [ user (AppUI.contentDropzone (mkFile "cat.png")) ambient; settled 1%nat;
    user (AppUI.styleDropzone (mkFile "vangogh.png")) ambient; settled 1%nat;
    user (AppUI.transferButton false) ambient ].

(** The document right after that click: the transfer is in flight. *)
Definition submitted : AppUI.AppSystem :=
  play apply (AppUI.controls localhost) accepts session AppUI.boot.

(** A gallery of two results, the first one open in the preview. *)
Definition sunset : GalleryImage := mkGalleryImage "sunset.png" "2024-01-01T10:00:00".
Definition harbour : GalleryImage := mkGalleryImage "harbour.png" "2024-01-02T11:30:00".
Definition previewing : Gallery.State := Gallery.mkState [sunset; harbour] false (Some sunset).

(** A backend that lists both and on which every [DELETE] succeeds, and one
    on which every request fails. *)
Definition deletes : Network := fun R req =>
  match req in Api R return Outcome R with
  | getGallery => Resolved (mkGalleryResponse true [sunset; harbour])
  | other => accepts _ other
  end.
Definition fails : Network := http500.


(** Both tiles' delete buttons are clicked (and confirmed) before either
    request settles; then both deletes succeed, [sunset.png] first. *)
Definition two_deletes : list (Turn GalleryUI.Control) :=
  [ settled 0%nat;
    user (GalleryUI.tileDelete sunset) Gallery.yes;
    user (GalleryUI.tileDelete harbour) Gallery.yes;
    settled 0%nat;
    settled 0%nat ].

End Samples.

(** * Properties *)

(** ** Submitting without both images *)

Module AppFacts.
Import App Samples.

(** The guard of [handleStyleTransfer] reads only the two image slots. *)
Lemma handleStyleTransfer_guard base st quickMode :
  contentImage st = None \/ styleImage st = None ->
  handleStyleTransfer base st quickMode
  = SetState (setError (Some missing_images_message)) Done.
Proof.
  unfold handleStyleTransfer.
  intros [-> | ->]; [reflexivity|].
  destruct (contentImage st); reflexivity.
Qed.

(** C1: when the content image or the style image is absent, submitting (in
    quick or standard mode) reports the missing-images error in the [error]
    slot, sends no request, and leaves every other slot of the workflow
    state as it was: both image slots, the result, the processing flag, the
    progress, the intensity and quality settings. *)
Theorem submit_without_both_images base net quickMode st :
  contentImage st = None \/ styleImage st = None ->
  let w := submit base net quickMode st in
  error (state w) = Some missing_images_message
  /\ trace w = []
  /\ state w = apply (setError (Some missing_images_message)) st
  /\ contentImage (state w) = contentImage st
  /\ styleImage (state w) = styleImage st
  /\ resultImage (state w) = resultImage st
  /\ isProcessing (state w) = isProcessing st
  /\ processingProgress (state w) = processingProgress st
  /\ styleIntensity (state w) = styleIntensity st
  /\ quality (state w) = quality st.
Proof.
  intros Hmissing. unfold submit.
  rewrite (handleStyleTransfer_guard _ _ _ Hmissing).
  destruct st; cbn. repeat split.
Qed.

(** Submitting from the initial state, where neither image is present. *)
Lemma submit_without_both_images_witness :
  let w := submit "http://localhost:5000" (fun _ _ => Rejected "Network Error") true initial in
  error (state w) = Some missing_images_message
  /\ trace w = []
  /\ state w = apply (setError (Some missing_images_message)) initial
  /\ contentImage (state w) = None
  /\ styleImage (state w) = None
  /\ resultImage (state w) = None
  /\ isProcessing (state w) = false
  /\ processingProgress (state w) = 0
  /\ styleIntensity (state w) = 1.0%float
  /\ quality (state w) = "standard".
Proof.
  exact (submit_without_both_images _ _ true initial (or_introl eq_refl)).
Defined.

(** ** Submitting with both images *)

(** With both images present exactly one request goes out, whatever the
    other slots hold; it carries the stored paths, intensity and (in
    standard mode) quality. *)
Lemma submit_sends_one_request base (net : Network) quickMode st content style :
  contentImage st = Some content ->
  styleImage st = Some style ->
  trace (submit base net quickMode st)
  = [Requested (transfer_request quickMode content style st)].
Proof.
  intros Hc Hs. unfold submit, handleStyleTransfer, transfer_request.
  rewrite Hc, Hs. cbn.
  destruct quickMode; cbn;
    match goal with |- context [net ?R ?req] => destruct (net R req) as [r|m] end;
    cbn; try destruct (success r); reflexivity.
Qed.

(** The three ways a submission ends. *)
Lemma submit_rejected base (net : Network) quickMode st content style message :
  contentImage st = Some content ->
  styleImage st = Some style ->
  net _ (transfer_request quickMode content style st) = Rejected message ->
  state (submit base net quickMode st)
  = mkState (backendStatus st) (Some content) (Some style) (resultImage st) false 0
      (styleIntensity st) (quality st)
      (Some ("Style transfer failed: " +:+ message)) (showGallery st).
Proof.
  intros Hc Hs. unfold submit, handleStyleTransfer, transfer_request.
  rewrite Hc, Hs. destruct st; cbn in *. subst.
  destruct quickMode; cbn; intros ->; reflexivity.
Qed.

Lemma submit_refused base (net : Network) quickMode st content style response :
  contentImage st = Some content ->
  styleImage st = Some style ->
  net _ (transfer_request quickMode content style st) = Resolved response ->
  success response = false ->
  state (submit base net quickMode st)
  = mkState (backendStatus st) (Some content) (Some style) (resultImage st) false 0
      (styleIntensity st) (quality st) None (showGallery st).
Proof.
  intros Hc Hs. unfold submit, handleStyleTransfer, transfer_request.
  rewrite Hc, Hs. destruct st; cbn in *. subst.
  destruct quickMode; cbn; intros -> ->; reflexivity.
Qed.

Lemma submit_succeeded base (net : Network) quickMode st content style response :
  contentImage st = Some content ->
  styleImage st = Some style ->
  net _ (transfer_request quickMode content style st) = Resolved response ->
  success response = true ->
  state (submit base net quickMode st)
  = mkState (backendStatus st) (Some content) (Some style)
      (Some (mkResult (output_image response)
               (base +:+ "/api/image/" +:+ output_image response)
               (processing_time response)))
      false 100 (styleIntensity st) (quality st) None (showGallery st).
Proof.
  intros Hc Hs. unfold submit, handleStyleTransfer, transfer_request.
  rewrite Hc, Hs. destruct st; cbn in *. subst.
  destruct quickMode; cbn; intros -> ->; reflexivity.
Qed.

(** A transport or HTTP failure puts a readable reason in the [error] slot
    and keeps both images, so the user can submit again as is. *)
Lemma submit_rejected_keeps_images base (net : Network) quickMode st content style message :
  contentImage st = Some content ->
  styleImage st = Some style ->
  net _ (transfer_request quickMode content style st) = Rejected message ->
  let st' := state (submit base net quickMode st) in
  error st' = Some ("Style transfer failed: " +:+ message)
  /\ contentImage st' = Some content
  /\ styleImage st' = Some style
  /\ isProcessing st' = false.
Proof.
  intros Hc Hs Hnet. cbn zeta.
  rewrite (submit_rejected _ _ _ _ _ _ _ Hc Hs Hnet). repeat split.
Qed.

Example submit_http500 :
  state (submit localhost http500 false ready)
  = mkState "online" (Some cat) (Some vangogh) None false 0 1.0%float "standard"
      (Some "Style transfer failed: Request failed with status code 500") false.
Proof. reflexivity. Qed.

(** C3, at the input where the code departs from it: both images present,
    the backend answers the transfer with [{ success: false }].  The handler
    has no [else] branch for that payload: the request goes out, then the
    state is exactly what it was before the click -- [error] is empty, no
    result, not processing -- so no failure is shown.  (Both images are kept,
    as the claim says.) *)
Theorem refused_transfer_reports_no_failure :
  let w := submit localhost refuses false ready in
  (exists data, trace w = [Requested (styleTransfer data)])
  /\ error (state w) = None
  /\ resultImage (state w) = None
  /\ isProcessing (state w) = false
  /\ contentImage (state w) = Some cat
  /\ styleImage (state w) = Some vangogh
  /\ state w = ready.
Proof.
  cbn zeta. split; [eexists; reflexivity|]. repeat split.
Qed.

(** The same holds from every state that holds both images, in both modes. *)
Lemma refused_transfer_sets_no_error base (net : Network) quickMode st content style response :
  contentImage st = Some content ->
  styleImage st = Some style ->
  net _ (transfer_request quickMode content style st) = Resolved response ->
  success response = false ->
  error (state (submit base net quickMode st)) = None.
Proof.
  intros Hc Hs Hnet Hr.
  rewrite (submit_refused _ _ _ _ _ _ _ Hc Hs Hnet Hr). reflexivity.
Qed.

(** C7, counterexample: with the intensity slot holding [2.5], outside
    [0.1, 2.0], submitting sends the transfer request with intensity [2.5];
    nothing is validated and no error is reported. *)
Lemma out_of_range_intensity_is_sent :
  AppUI.intensity_in_range 2.5%float = false
  /\ styleIntensity overdriven = 2.5%float
  /\ trace (submit localhost accepts false overdriven)
     = [Requested (styleTransfer
          (mkTransferData "uploads/cat.png" "uploads/vangogh.png" 2.5%float
             (Some "standard")))]
  /\ error (state (submit localhost accepts false overdriven)) = None.
Proof. repeat split. Qed.

(** ** Preview handles *)

Lemma never_revokes_run {S U O} (apply : U -> S -> S) amb net (p : Proc U O) :
  never_revokes p ->
  forall w, live_urls w ⊆ live_urls (run apply amb net p w).
Proof.
  induction p as [|u k IH|R e k IH|o k IH|R req k IH]; cbn; intros Hp w.
  - reflexivity.
  - apply (IH Hp (write apply u w)).
  - destruct Hp as [He Hk].
    destruct e; cbn in *; try discriminate;
      (etransitivity; [|apply IH, Hk]); cbn; set_solver.
  - apply (IH Hp (record (Called o) w)).
  - apply (IH _ (Hp _) (record (Requested req) w)).
Qed.

(** None of the handlers of [App] releases a blob URL. *)
Lemma app_never_revokes base st :
  (forall file, never_revokes (handleContentUpload file))
  /\ (forall file, never_revokes (handleStyleUpload file))
  /\ (forall quickMode, never_revokes (handleStyleTransfer base st quickMode))
  /\ never_revokes handleReset
  /\ never_revokes checkBackendHealth.
Proof.
  split; [|split; [|split; [|split]]].
  - intros file [r|m]; cbn; auto.
  - intros file [r|m]; cbn; auto.
  - intros quickMode. unfold handleStyleTransfer.
    destruct (contentImage st), (styleImage st); cbn; auto.
    intros [r|m]; cbn; auto; destruct (success r); cbn; auto.
  - cbn; auto.
  - intros [r|m]; cbn; auto.
Qed.

(** C9, at the input where the code departs from it: upload [cat.png] as the
    content image, upload [dog.png] in its place, then reset.  Each upload
    mints a blob URL for its preview and nothing revokes one: after the
    replacement URL 0 (the preview of [cat.png]) is still live beside URL 1,
    and after the reset both are still live although no slot refers to
    them. *)
Theorem replaced_preview_stays_live :
  let replaced :=
    play apply (AppUI.controls localhost) accepts (take 4 replace_then_reset) AppUI.boot in
  let reset :=
    play apply (AppUI.controls localhost) accepts replace_then_reset AppUI.boot in
  contentImage (state (doc replaced)) = Some (mkUploaded "dog.png" "uploads/dog.png" 1%nat)
  /\ live_urls (doc replaced) = {[ 0%nat; 1%nat ]}
  /\ contentImage (state (doc reset)) = None
  /\ styleImage (state (doc reset)) = None
  /\ live_urls (doc reset) = {[ 0%nat; 1%nat ]}.
Proof. cbn zeta. repeat split; vm_compute; reflexivity. Qed.

End AppFacts.

(** ** Scripts stay within the event loop *)

Section ScriptFacts.
Context {S U O C : Type}.
Variable apply : U -> S -> S.
Variable controls : C -> S -> option (Proc U O).

Lemma turn_steps net t (sys : System S U O) :
  rtc (step apply controls) sys (turn apply controls net t sys).
Proof.
  destruct t as [c amb|i]; cbn.
  - destruct (controls c (state (doc sys))) eqn:Hc; [|reflexivity].
    apply rtc_once. now apply step_event with (c := c).
  - destruct (in_flight sys !! i) eqn:Hi; [|reflexivity].
    apply rtc_once. now apply step_settle.
Qed.

Lemma play_steps net script (sys : System S U O) :
  rtc (step apply controls) sys (play apply controls net script sys).
Proof.
  revert sys. induction script as [|t script IH]; intros sys; cbn.
  - reflexivity.
  - etransitivity; [apply turn_steps | apply IH].
Qed.
End ScriptFacts.

(** ** Blob URLs in the event loop *)

Section RevokeFacts.
Context {S U O C : Type}.
Variable apply : U -> S -> S.
Variable controls : C -> S -> option (Proc U O).

Lemma exec_never_revokes amb (p : Proc U O) :
  never_revokes p ->
  forall sys : System S U O,
    all_live (doc sys) ->
    Forall resumes_without_revoking (in_flight sys) ->
    all_live (doc (exec apply amb p sys))
    /\ Forall resumes_without_revoking (in_flight (exec apply amb p sys)).
Proof.
  induction p as [|u k IH|R e k IH|o k IH|R req k IH]; cbn; intros Hp sys Hlive Hfl.
  - auto.
  - apply (IH Hp); auto.
  - destruct Hp as [He Hk].
    destruct e; cbn in *; try discriminate; apply IH; auto.
    intros url Hurl; cbn in *.
    destruct (decide (url = next_url (doc sys))) as [->|Hne].
    + now apply elem_of_union_l, elem_of_singleton.
    + apply elem_of_union_r, Hlive. lia.
  - apply (IH Hp); auto.
  - split; [exact Hlive|]. apply Forall_app. split; [exact Hfl|].
    constructor; [exact Hp|constructor].
Qed.

(** When every control is bound to a handler that never revokes, every
    blob URL ever minted is live in every state the loop reaches. *)
Lemma nothing_released (sys sys' : System S U O) :
  (forall c st p, controls c st = Some p -> never_revokes p) ->
  rtc (step apply controls) sys sys' ->
  all_live (doc sys) ->
  Forall resumes_without_revoking (in_flight sys) ->
  all_live (doc sys') /\ Forall resumes_without_revoking (in_flight sys').
Proof.
  intros Hcontrols Hsteps. induction Hsteps as [sys|sys mid sys' Hstep _ IH];
    intros Hlive Hfl; [auto|].
  assert (all_live (doc mid) /\ Forall resumes_without_revoking (in_flight mid))
    as [Hlive' Hfl']; [|auto].
  destruct Hstep as [c amb p sys Hc|i item outcome amb sys Hi].
  - eapply exec_never_revokes; eauto.
  - apply exec_never_revokes; cbn; auto using Forall_delete.
    exact (proj1 (Forall_lookup _ _) Hfl _ _ Hi outcome).
Qed.
End RevokeFacts.

(** ** Submissions in flight *)

Module AppLoopFacts.
Import App AppUI Samples.

Lemma count_transfers_app {U O} (l : list (Pending U O)) item :
  count_transfers (l ++ [item])
  = (count_transfers l + if is_transfer (p_request item) then 1 else 0)%nat.
Proof.
  unfold count_transfers.
  rewrite filter_app, length_app. f_equal.
  rewrite filter_cons, filter_nil.
  destruct (is_transfer (p_request item)); case_decide; cbn; congruence.
Qed.

Lemma count_transfers_delete {U O} (l : list (Pending U O)) i item :
  l !! i = Some item ->
  count_transfers l
  = (count_transfers (delete i l) + if is_transfer (p_request item) then 1 else 0)%nat.
Proof.
  intros Hi. unfold count_transfers.
  rewrite delete_take_drop.
  rewrite <- (take_drop_middle _ _ _ Hi) at 1.
  rewrite !filter_app, filter_cons, !length_app.
  destruct (is_transfer (p_request item)); case_decide; try congruence;
    cbn [length]; lia.
Qed.

Lemma boot_invariant : invariant boot.
Proof.
  unfold invariant. split; [|split; [|split]].
  - constructor; [|constructor].
    intros [r|m] amb sys; cbn; repeat split.
  - reflexivity.
  - reflexivity.
  - repeat constructor.
Qed.

Lemma settle_preserves_invariant sys i item outcome amb :
  invariant sys ->
  in_flight sys !! i = Some item ->
  invariant (exec apply amb (p_resume item outcome)
               (mkSystem (doc sys) (delete i (in_flight sys)))).
Proof.
  intros (Hq & Hn & Hr & Ht) Hi.
  pose proof (proj1 (Forall_lookup _ _) Hq _ _ Hi) as Hitem.
  destruct (Hitem outcome amb (mkSystem (doc sys) (delete i (in_flight sys))))
    as (Hfl & Htr & Hint & Hproc).
  cbn in *. unfold invariant. rewrite Hfl, Htr, Hint, Hproc.
  repeat split; auto.
  - now apply Forall_delete.
  - unfold transfers_in_flight in *. rewrite Hfl.
    rewrite (count_transfers_delete _ _ _ Hi) in Hn.
    destruct (is_transfer (p_request item)), (isProcessing (state (doc sys))); lia.
Qed.

(** A turn that sends nothing and keeps [isProcessing] keeps the invariant. *)
Lemma invariant_frame (sys sys' : AppSystem) :
  invariant sys ->
  in_flight sys' = in_flight sys ->
  trace (doc sys') = trace (doc sys) ->
  isProcessing (state (doc sys')) = isProcessing (state (doc sys)) ->
  intensity_in_range (styleIntensity (state (doc sys'))) = true ->
  invariant sys'.
Proof.
  intros (Hq & Hn & Hr & Ht) Hfl Htr Hproc Hint.
  unfold invariant, transfers_in_flight in *.
  rewrite Hfl, Htr, Hproc. auto.
Qed.

(** A turn that sends one request and suspends keeps the invariant when the
    suspended rest settles quietly and [isProcessing] follows the kind of
    the request. *)
Lemma invariant_await (sys : AppSystem) (d : World State Empty_set) item :
  invariant sys ->
  settles_quietly item ->
  trace d = trace (doc sys) ++ [Requested (p_request item)] ->
  request_in_range (Requested (p_request item)) ->
  styleIntensity (state d) = styleIntensity (state (doc sys)) ->
  (if is_transfer (p_request item)
   then isProcessing (state (doc sys)) = false /\ isProcessing (state d) = true
   else isProcessing (state d) = isProcessing (state (doc sys))) ->
  invariant (mkSystem d (in_flight sys ++ [item])).
Proof.
  intros (Hq & Hn & Hr & Ht) Hitem Htr Hreq Hint Hproc.
  unfold invariant, transfers_in_flight in *. cbn [doc in_flight].
  rewrite count_transfers_app, Htr, Hint.
  repeat split; auto.
  - apply Forall_app; auto.
  - destruct (is_transfer (p_request item)).
    + destruct Hproc as [H0 H1]. rewrite H1. rewrite H0 in Hn. lia.
    + rewrite Hproc. lia.
  - apply Forall_app; auto.
Qed.

Lemma event_preserves_invariant base sys c p amb :
  invariant sys ->
  controls base c (state (doc sys)) = Some p ->
  invariant (exec apply amb p sys).
Proof.
  intros Hinv Hc.
  pose proof Hinv as (Hq & Hn & Hr & Ht).
  unfold controls in Hc.
  destruct c; destruct (showGallery (state (doc sys))) eqn:Hg;
    try discriminate; cbn in Hc.
  (* transferButton *)
  - unfold transferDisabled in Hc.
    destruct (contentImage (state (doc sys))) as [content|] eqn:Hci; [|discriminate].
    destruct (styleImage (state (doc sys))) as [style|] eqn:Hsi; [|discriminate].
    destruct (isProcessing (state (doc sys))) eqn:Hip; [discriminate|].
    cbn in Hc. injection Hc as <-.
    unfold handleStyleTransfer. rewrite Hci, Hsi. cbn.
    apply invariant_await; cbn; auto.
    + intros [r|m] amb' sys'; destruct quickMode; cbn;
        try destruct (success r); cbn; auto.
    + destruct quickMode; exact Hr.
    + destruct quickMode; cbn; auto.
  (* dropzones *)
  - destruct (isProcessing (state (doc sys))) eqn:Hip; [discriminate|].
    injection Hc as <-. cbn.
    apply invariant_await; cbn; auto.
    intros [r|m] amb' sys'; cbn; auto.
  - destruct (isProcessing (state (doc sys))) eqn:Hip; [discriminate|].
    injection Hc as <-. cbn.
    apply invariant_await; cbn; auto.
    intros [r|m] amb' sys'; cbn; auto.
  (* reset buttons *)
  - destruct (_ && _); [|discriminate]. injection Hc as <-. cbn.
    eapply invariant_frame; eauto.
  - destruct (_ && _); [|discriminate]. injection Hc as <-. cbn.
    eapply invariant_frame; eauto.
  (* slider and select *)
  - destruct (isProcessing (state (doc sys))) eqn:Hip; [discriminate|].
    destruct (intensity_in_range parsed) eqn:Hp; [|discriminate].
    injection Hc as <-. cbn.
    eapply invariant_frame; eauto.
  - destruct (isProcessing (state (doc sys))) eqn:Hip; [discriminate|].
    injection Hc as <-. cbn.
    eapply invariant_frame; eauto.
  (* gallery *)
  - injection Hc as <-. cbn. eapply invariant_frame; eauto.
  - injection Hc as <-. cbn. eapply invariant_frame; eauto.
  - injection Hc as <-. cbn. eapply invariant_frame; eauto.
Qed.

Lemma step_preserves_invariant base sys sys' :
  invariant sys ->
  step apply (controls base) sys sys' ->
  invariant sys'.
Proof.
  intros Hinv Hstep. destruct Hstep.
  - eapply event_preserves_invariant; eauto.
  - eapply settle_preserves_invariant; eauto.
Qed.

Lemma reachable_invariant base sys :
  reachable base sys -> invariant sys.
Proof.
  unfold reachable. revert sys.
  apply (rtc_ind_r (fun s => invariant s) boot).
  - exact boot_invariant.
  - intros y z _ Hstep IH. eapply step_preserves_invariant; eauto.
Qed.

(** In every state [App] can reach, every preview URL ever created is still
    live: uploads mint them, nothing releases them. *)
Lemma previews_are_never_released base sys :
  reachable base sys -> all_live (doc sys).
Proof.
  intros Hreach.
  refine (proj1 (nothing_released apply (controls base) boot sys _ Hreach _ _)).
  - intros c st p. unfold controls.
    destruct (AppFacts.app_never_revokes base st) as (Hcu & Hsu & Hst & Hr & _).
    destruct c; destruct (showGallery st); try discriminate; cbn;
      repeat match goal with
             | |- context [if ?b then _ else _] => destruct b
             end;
      try discriminate; intros [= <-];
      first [apply Hcu | apply Hsu | apply Hst | exact Hr | exact I].
  - intros url Hurl. cbn in Hurl. lia.
  - constructor; [|constructor]. intros [r|m]; cbn; auto.
Qed.

(** C2, counterexample: [handleStyleTransfer] called while the first
    submission is still in flight is not rejected: it sends a second transfer
    request, no error is set, and two transfers are in flight. *)
Lemma second_submit_is_sent :
  let idle := mkSystem (world ready) [] : AppSystem in
  let first := exec apply ambient (handleStyleTransfer localhost ready false) idle in
  let second :=
    exec apply ambient (handleStyleTransfer localhost (state (doc first)) true) first in
  isProcessing (state (doc first)) = true
  /\ transfers_in_flight first = 1%nat
  /\ transfers_in_flight second = 2%nat
  /\ length (trace (doc second)) = 2%nat
  /\ error (state (doc second)) = None.
Proof. repeat split. Qed.

(** C2, as the code has it: the single-submission rule is kept by the
    rendered controls.  In every state the document can reach through them,
    the number of transfer requests in flight is one while [isProcessing]
    holds and zero otherwise -- so never more than one -- and while
    [isProcessing] holds neither transfer button dispatches a submit. *)
Theorem one_transfer_in_flight base sys :
  reachable base sys ->
  transfers_in_flight sys = (if isProcessing (state (doc sys)) then 1 else 0)%nat
  /\ (transfers_in_flight sys <= 1)%nat
  /\ (isProcessing (state (doc sys)) = true ->
      forall quickMode, controls base (transferButton quickMode) (state (doc sys)) = None).
Proof.
  intros Hreach. destruct (reachable_invariant _ _ Hreach) as (_ & Hn & _ & _).
  split; [exact Hn|]. split.
  - rewrite Hn. destruct (isProcessing _); lia.
  - intros Hp quickMode. unfold controls, transferDisabled. rewrite Hp.
    destruct (showGallery _); [reflexivity|].
    now rewrite !orb_true_r.
Qed.

Lemma submitted_reachable : reachable localhost submitted.
Proof. apply play_steps. Qed.

Example submitted_state :
  state (doc submitted)
  = mkState "checking" (Some cat) (Some vangogh) None true 0 1.0%float "standard" None false.
Proof. reflexivity. Qed.

(** In [submitted] the transfer of the sample session is in flight. *)
Lemma one_transfer_in_flight_witness :
  transfers_in_flight submitted
  = (if isProcessing (state (doc submitted)) then 1 else 0)%nat
  /\ (transfers_in_flight submitted <= 1)%nat
  /\ (isProcessing (state (doc submitted)) = true ->
      forall quickMode,
        controls localhost (transferButton quickMode) (state (doc submitted)) = None).
Proof.
  exact (one_transfer_in_flight localhost submitted submitted_reachable).
Defined.

(** C7, as the code has it: [handleStyleTransfer] validates nothing, it
    sends the stored intensity as it is; the bound comes from the slider.  In
    every state reachable through the rendered controls the stored intensity
    lies in [0.1, 2.0], every transfer request sent so far carried an
    intensity in [0.1, 2.0], and a submit from that state sends exactly the
    stored intensity. *)
Theorem intensity_bounded_by_slider base sys :
  reachable base sys ->
  let st := state (doc sys) in
  intensity_in_range (styleIntensity st) = true
  /\ Forall request_in_range (trace (doc sys))
  /\ forall (net : Network) quickMode content style,
       contentImage st = Some content ->
       styleImage st = Some style ->
       trace (submit base net quickMode st)
       = [Requested (transfer_request quickMode content style st)]
       /\ intensity_in_range (styleIntensity st) = true.
Proof.
  intros Hreach. destruct (reachable_invariant _ _ Hreach) as (_ & _ & Hr & Ht).
  cbn zeta. repeat split; auto.
  now apply AppFacts.submit_sends_one_request.
Qed.

Lemma intensity_bounded_by_slider_witness :
  let st := state (doc submitted) in
  intensity_in_range (styleIntensity st) = true
  /\ Forall request_in_range (trace (doc submitted))
  /\ forall (net : Network) quickMode content style,
       contentImage st = Some content ->
       styleImage st = Some style ->
       trace (submit localhost net quickMode st)
       = [Requested (transfer_request quickMode content style st)]
       /\ intensity_in_range (styleIntensity st) = true.
Proof.
  exact (intensity_bounded_by_slider localhost submitted submitted_reachable).
Defined.

End AppLoopFacts.

(** ** Binary64 arithmetic

    [PrimFloat]'s operations are specified by [SpecFloat]'s functions on
    mantissa and exponent ([add_spec], [div_spec], ...).  This section
    derives from those functions what rounding can do to a sum and to a
    quotient of positive numbers. *)

Module Binary64Facts.
Import StyleMixer.

(** *** Mantissas and shifts *)

Lemma digits2_pos_bounds (p : positive) :
  2 ^ (Zpos (digits2_pos p) - 1) <= Zpos p < 2 ^ Zpos (digits2_pos p).
Proof.
  induction p as [p IH|p IH|]; cbn [digits2_pos].
  - rewrite Pos2Z.inj_succ.
    replace (Z.succ (Zpos (digits2_pos p)) - 1) with (Z.succ (Zpos (digits2_pos p) - 1)) by lia.
    rewrite !Z.pow_succ_r by lia. lia.
  - rewrite Pos2Z.inj_succ.
    replace (Z.succ (Zpos (digits2_pos p)) - 1) with (Z.succ (Zpos (digits2_pos p) - 1)) by lia.
    rewrite !Z.pow_succ_r by lia. lia.
  - cbn. lia.
Qed.

Lemma Zdigits2_nonneg (m : Z) : 0 <= Zdigits2 m.
Proof. destruct m; cbn; lia. Qed.

Lemma Zdigits2_bounds (m : Z) :
  0 < m -> 2 ^ (Zdigits2 m - 1) <= m < 2 ^ Zdigits2 m.
Proof.
  destruct m as [|p|p]; try lia. intros _. apply digits2_pos_bounds.
Qed.

(** A number below [2 ^ d] has at most [d] binary digits. *)
Lemma Zdigits2_le (m d : Z) : 0 <= m -> 0 <= d -> m < 2 ^ d -> Zdigits2 m <= d.
Proof.
  intros Hm Hd Hlt.
  destruct (Z.eq_dec m 0) as [->|Hne]; [cbn; lia|].
  destruct (Zdigits2_bounds m ltac:(lia)) as [Hlo _].
  destruct (Z_le_gt_dec (Zdigits2 m) d) as [|Hgt]; [assumption|exfalso].
  assert (2 ^ d <= 2 ^ (Zdigits2 m - 1)) by (apply Z.pow_le_mono_r; lia).
  lia.
Qed.

Lemma iter_xO_value (m d : positive) :
  Zpos (Pos.iter xO m d) = Zpos m * 2 ^ Zpos d.
Proof.
  induction d as [|d IH] using Pos.peano_ind.
  - cbn. lia.
  - rewrite Pos.iter_succ, Pos2Z.inj_succ, Z.pow_succ_r by lia.
    rewrite Pos2Z.inj_xO, IH. lia.
Qed.

Lemma iter_xO_digits (m d : positive) :
  Zpos (digits2_pos (Pos.iter xO m d)) = Zpos (digits2_pos m) + Zpos d.
Proof.
  induction d as [|d IH] using Pos.peano_ind.
  - cbn. lia.
  - rewrite Pos.iter_succ. cbn [digits2_pos]. rewrite !Pos2Z.inj_succ, IH. lia.
Qed.

(** [shl_align] lowers the exponent to [e'] when that is smaller, keeping the
    value. *)
Lemma shl_align_spec (m : positive) (e e' : Z) :
  snd (shl_align m e e') = Z.min e e'
  /\ Zpos (fst (shl_align m e e')) = Zpos m * 2 ^ (e - Z.min e e')
  /\ Zpos (digits2_pos (fst (shl_align m e e'))) + Z.min e e' = Zpos (digits2_pos m) + e.
Proof.
  unfold shl_align. destruct (e' - e) as [|d|d] eqn:Hd; cbn [fst snd].
  - replace (Z.min e e') with e by lia. rewrite Z.sub_diag. cbn. lia.
  - replace (Z.min e e') with e by lia. rewrite Z.sub_diag. cbn. lia.
  - replace (Z.min e e') with e' by lia.
    replace (e - e') with (Zpos d) by lia.
    rewrite iter_xO_value, iter_xO_digits. lia.
Qed.

Lemma shr_1_m (mrs : shr_record) :
  0 <= shr_m mrs -> shr_m (shr_1 mrs) = shr_m mrs / 2.
Proof.
  destruct mrs as [m r s]. cbn [shr_m]. intros Hm.
  rewrite <- Z.div2_div.
  destruct m as [|[p|p|]|p]; try lia; reflexivity.
Qed.

Lemma iter_pos_shr_1_m (n : positive) (mrs : shr_record) :
  0 <= shr_m mrs ->
  shr_m (SpecFloat.iter_pos shr_1 n mrs) = shr_m mrs / 2 ^ Zpos n.
Proof.
  revert mrs. induction n as [n IH|n IH|]; intros mrs Hm; cbn [SpecFloat.iter_pos].
  - assert (0 <= shr_m (shr_1 mrs)) as H1
      by (rewrite shr_1_m by assumption; apply Z.div_pos; lia).
    assert (0 <= shr_m (SpecFloat.iter_pos shr_1 n (shr_1 mrs))) as H2
      by (rewrite IH by assumption; apply Z.div_pos; [assumption|apply Z.pow_pos_nonneg; lia]).
    rewrite IH, IH, shr_1_m by assumption.
    rewrite !Z.div_div by (try apply Z.pow_pos_nonneg; lia).
    f_equal.
    replace (Zpos n~1) with (1 + Zpos n + Zpos n) by lia.
    rewrite !Z.pow_add_r by lia. lia.
  - assert (0 <= shr_m (SpecFloat.iter_pos shr_1 n mrs)) as H2
      by (rewrite IH by assumption; apply Z.div_pos; [assumption|apply Z.pow_pos_nonneg; lia]).
    rewrite IH, IH by assumption.
    rewrite !Z.div_div by (try apply Z.pow_pos_nonneg; lia).
    f_equal.
    replace (Zpos n~0) with (Zpos n + Zpos n) by lia.
    rewrite !Z.pow_add_r by lia. lia.
  - rewrite shr_1_m by assumption. reflexivity.
Qed.

(** [shr_fexp] raises the exponent to [fexp] of the magnitude, when that is
    larger, and truncates the mantissa accordingly. *)
Lemma shr_fexp_spec (m e : Z) (l : location) :
  0 <= m ->
  let e' := Z.max e (fexp prec emax (Zdigits2 m + e)) in
  snd (shr_fexp prec emax m e l) = e'
  /\ shr_m (fst (shr_fexp prec emax m e l)) = m / 2 ^ (e' - e)
  /\ (e' = e -> fst (shr_fexp prec emax m e l) = shr_record_of_loc m l).
Proof.
  intros Hm e'. unfold shr_fexp, shr.
  assert (shr_m (shr_record_of_loc m l) = m) as Hrec
    by (destruct l as [|[]]; reflexivity).
  destruct (fexp prec emax (Zdigits2 m + e) - e) as [|n|n] eqn:Hn; cbn [fst snd].
  - assert (e' = e) as -> by lia. rewrite Z.sub_diag, Z.pow_0_r, Z.div_1_r. auto.
  - assert (e' = e + Zpos n) as -> by lia.
    replace (e + Zpos n - e) with (Zpos n) by lia.
    rewrite iter_pos_shr_1_m by lia. rewrite Hrec. repeat split; lia.
  - assert (e' = e) as -> by lia. rewrite Z.sub_diag, Z.pow_0_r, Z.div_1_r. auto.
Qed.

Lemma round_nearest_even_bounds (m : Z) (l : location) :
  m <= round_nearest_even m l <= m + 1.
Proof.
  destruct l as [|[]]; cbn; try lia. destruct (Z.even m); lia.
Qed.

Lemma loc_of_shr_record_of_loc (m : Z) (l : location) :
  loc_of_shr_record (shr_record_of_loc m l) = l.
Proof. destruct l as [|[]]; reflexivity. Qed.


(** What [binary_round_aux] returns: the mantissa is truncated to the
    exponent [e1], rounded to [m1] (the truncation or its successor), and
    truncated once more to the exponent [e2]. *)
Lemma binary_round_aux_spec (sx : bool) (mx ex : Z) (lx : location) :
  0 <= mx ->
  exists m1 m2 e1 e2,
    e1 = Z.max ex (fexp prec emax (Zdigits2 mx + ex))
    /\ e2 = Z.max e1 (fexp prec emax (Zdigits2 m1 + e1))
    /\ mx / 2 ^ (e1 - ex) <= m1 <= mx / 2 ^ (e1 - ex) + 1
    /\ (lx = loc_Exact -> e1 = ex -> m1 = mx)
    /\ m2 = m1 / 2 ^ (e2 - e1)
    /\ binary_round_aux prec emax sx mx ex lx =
       match m2 with
       | Z0 => S754_zero sx
       | Zpos m => if (e2 <=? emax - prec)%Z then S754_finite sx m e2 else S754_infinity sx
       | Zneg _ => S754_nan
       end.
Proof.
  intros Hm. unfold binary_round_aux.
  destruct (shr_fexp_spec mx ex lx Hm) as (He1 & Hk & Hsame).
  destruct (shr_fexp prec emax mx ex lx) as [mrs' e'] eqn:H1. cbn [fst snd] in *.
  pose proof (round_nearest_even_bounds (shr_m mrs') (loc_of_shr_record mrs')) as Hround.
  set (m1 := round_nearest_even (shr_m mrs') (loc_of_shr_record mrs')) in *.
  assert (0 <= shr_m mrs') as Hk0
    by (rewrite Hk; apply Z.div_pos; [assumption|apply Z.pow_pos_nonneg; lia]).
  assert (0 <= m1) as Hm1 by lia.
  destruct (shr_fexp_spec m1 e' loc_Exact Hm1) as (He2 & Hm2 & _).
  destruct (shr_fexp prec emax m1 e' loc_Exact) as [mrs'' e''] eqn:H2. cbn [fst snd] in *.
  exists m1, (shr_m mrs''), e', e''.
  split; [exact He1|]. split; [exact He2|].
  split; [rewrite He1, <- Hk; exact Hround|].
  split; [|split; [rewrite He2; exact Hm2|reflexivity]].
  intros -> Hsame'. subst m1.
  rewrite Hsame by (rewrite <- He1; exact Hsame').
  rewrite loc_of_shr_record_of_loc. reflexivity.
Qed.

(** Two truncations with one rounding step in between stay within one unit
    of the final exponent. *)
Lemma two_truncations (m a b m1 m2 : Z) :
  0 <= m -> 0 <= a -> 0 <= b ->
  m / 2 ^ a <= m1 <= m / 2 ^ a + 1 ->
  m2 = m1 / 2 ^ b ->
  m + 1 - 2 ^ (a + b) <= m2 * 2 ^ (a + b) <= m + 2 ^ (a + b).
Proof.
  intros Hm Ha Hb Hm1 ->.
  rewrite Z.pow_add_r by assumption.
  assert (0 < 2 ^ a) as HA by (apply Z.pow_pos_nonneg; lia).
  assert (0 < 2 ^ b) as HB by (apply Z.pow_pos_nonneg; lia).
  pose proof (Z.div_mod m (2 ^ a) ltac:(lia)) as Hdm.
  pose proof (Z.mod_pos_bound m (2 ^ a) HA) as Hr.
  pose proof (Z.div_mod m1 (2 ^ b) ltac:(lia)) as Hdm1.
  pose proof (Z.mod_pos_bound m1 (2 ^ b) HB) as Hr1.
  set (A := 2 ^ a) in *. set (B := 2 ^ b) in *.
  set (k := m / A) in *. set (r := m mod A) in *.
  set (k1 := m1 / B) in *. set (r1 := m1 mod B) in *.
  split; nia.
Qed.

(** The rounded mantissa has at most one digit more than the truncated
    one. *)
Lemma digits_after_rounding (m a m1 : Z) :
  0 <= m -> 0 <= a ->
  m / 2 ^ a <= m1 <= m / 2 ^ a + 1 ->
  Zdigits2 m1 + a <= Z.max (Zdigits2 m + 1) (a + 1).
Proof.
  intros Hm Ha Hm1.
  assert (0 < 2 ^ a) as HA by (apply Z.pow_pos_nonneg; lia).
  pose proof (Z.div_mod m (2 ^ a) ltac:(lia)) as Hdm.
  pose proof (Z.mod_pos_bound m (2 ^ a) HA) as Hr.
  assert (0 <= m / 2 ^ a) as Hk by (apply Z.div_pos; lia).
  destruct (Z.eq_dec (m / 2 ^ a) 0) as [Hz|Hnz].
  - assert (Zdigits2 m1 <= 1); [|lia].
    apply Zdigits2_le; [lia|lia|]. change (2 ^ 1) with 2. lia.
  - assert (0 < m) as Hpos by nia.
    destruct (Zdigits2_bounds m Hpos) as [_ Hhi].
    assert (a < Zdigits2 m) as Hlt.
    { destruct (Z_lt_le_dec a (Zdigits2 m)) as [|Hge]; [assumption|exfalso].
      assert (2 ^ Zdigits2 m <= 2 ^ a) by (apply Z.pow_le_mono_r; lia).
      nia. }
    assert (Zdigits2 m1 <= Zdigits2 m + 1 - a); [|lia].
    apply Zdigits2_le; [lia|lia|].
    apply (Z.mul_lt_mono_pos_r (2 ^ a)); [exact HA|].
    rewrite <- Z.pow_add_r by lia.
    replace (Zdigits2 m + 1 - a + a) with (Z.succ (Zdigits2 m)) by lia.
    rewrite Z.pow_succ_r by apply Zdigits2_nonneg.
    nia.
Qed.

(** The exponent of the result, when the input is aligned: [ex] is not above
    [fexp] of a bound [D] on its magnitude. *)
Lemma rounded_exponent_bound (mx ex m1 D e1 e2 : Z) :
  0 <= mx ->
  Zdigits2 mx + ex <= D ->
  ex <= fexp prec emax D ->
  e1 = Z.max ex (fexp prec emax (Zdigits2 mx + ex)) ->
  mx / 2 ^ (e1 - ex) <= m1 <= mx / 2 ^ (e1 - ex) + 1 ->
  e2 = Z.max e1 (fexp prec emax (Zdigits2 m1 + e1)) ->
  e2 <= fexp prec emax (D + 1).
Proof.
  intros Hm HD Hex He1 Hm1 He2.
  pose proof (digits_after_rounding mx (e1 - ex) m1 Hm ltac:(lia) Hm1) as Hd.
  unfold fexp, SpecFloat.emin, prec, emax in *. lia.
Qed.


(** *** Values as rationals *)

Lemma pow2_pos (e : Z) : (0 < pow2 e)%Q.
Proof. apply Qpower_0_lt. reflexivity. Qed.

Lemma pow2_add (a b : Z) : (pow2 (a + b) == pow2 a * pow2 b)%Q.
Proof. apply Qpower_plus. discriminate. Qed.

Lemma pow2_Z (n : Z) : 0 <= n -> (pow2 n == inject_Z (2 ^ n))%Q.
Proof. intros Hn. unfold pow2. now rewrite Zpower_Qpower. Qed.

Lemma pow2_le (a b : Z) : a <= b -> (pow2 a <= pow2 b)%Q.
Proof.
  intros Hab. replace b with (a + (b - a)) by lia.
  rewrite pow2_add, (pow2_Z (b - a)) by lia.
  assert (1 <= 2 ^ (b - a)) as H
    by (pose proof (Z.pow_pos_nonneg 2 (b - a)); lia).
  rewrite Zle_Qle in H. change (inject_Z 1) with 1%Q in H.
  pose proof (pow2_pos a). nra.
Qed.

Lemma pow2_lt_inv (a b : Z) : (pow2 a < pow2 b)%Q -> a < b.
Proof.
  intros Hlt. destruct (Z_lt_le_dec a b) as [|Hge]; [assumption|exfalso].
  apply pow2_le in Hge. lra.
Qed.

Lemma value_shift (m e n : Z) : 0 <= n -> (value (m * 2 ^ n) e == value m (e + n))%Q.
Proof.
  intros Hn. unfold value.
  rewrite inject_Z_mult, pow2_add, (pow2_Z n) by assumption. ring.
Qed.

Lemma value_plus (a b e : Z) : (value (a + b) e == value a e + value b e)%Q.
Proof. unfold value. rewrite inject_Z_plus. ring. Qed.

Lemma value_pos (m e : Z) : 0 < m -> (0 < value m e)%Q.
Proof.
  intros Hm. unfold value. rewrite Zlt_Qlt in Hm. change (inject_Z 0) with 0%Q in Hm.
  pose proof (pow2_pos e). nra.
Qed.

(** A mantissa of [d] digits at exponent [e] lies in [2^(d+e-1), 2^(d+e)). *)
Lemma value_bounds (m : positive) (e : Z) :
  (pow2 (Zpos (digits2_pos m) + e - 1) <= value (Zpos m) e
   /\ value (Zpos m) e < pow2 (Zpos (digits2_pos m) + e))%Q.
Proof.
  destruct (digits2_pos_bounds m) as [Hlo Hhi].
  rewrite Zle_Qle in Hlo. rewrite Zlt_Qlt in Hhi.
  rewrite <- !pow2_Z in * by lia.
  replace (Zpos (digits2_pos m) + e - 1) with ((Zpos (digits2_pos m) - 1) + e) by lia.
  rewrite !pow2_add. unfold value. pose proof (pow2_pos e). split; nra.
Qed.

(** The exact value of a positive finite number. *)
Lemma exact_positive (x : float) (m : positive) (e : Z) :
  Prim2SF x = S754_finite false m e ->
  exists q, exact x = Some q /\ (q == value (Zpos m) e)%Q.
Proof.
  intros Hx. unfold exact. rewrite Hx. eexists. split; [reflexivity|].
  unfold value. destruct e as [|k|k].
  - unfold pow2. cbn. rewrite Qmult_1_r. reflexivity.
  - rewrite pow2_Z by lia.
    change ((Zpos m * 2 ^ Zpos k) # 1) with (inject_Z (Zpos m * 2 ^ Zpos k)).
    rewrite inject_Z_mult. reflexivity.
  - change (Zneg k) with (- Zpos k). unfold pow2. rewrite Qpower_opp.
    change 2%Q with (inject_Z 2).
    rewrite <- Zpower_Qpower by lia. rewrite <- Pos2Z.inj_pow.
    rewrite Qmake_Qdiv. reflexivity.
Qed.

Lemma exact_zero (x : float) (s : bool) :
  Prim2SF x = S754_zero s -> exact x = Some 0%Q.
Proof. intros Hx. unfold exact. now rewrite Hx. Qed.

(** What validity says about a finite number. *)
Lemma finite_valid (x : float) (s : bool) (m : positive) (e : Z) :
  Prim2SF x = S754_finite s m e ->
  fexp prec emax (Zpos (digits2_pos m) + e) = e /\ e <= emax - prec.
Proof.
  intros Hx. pose proof (Prim2SF_valid x) as Hv. rewrite Hx in Hv.
  cbn [valid_binary] in Hv. unfold bounded, canonical_mantissa in Hv.
  apply andb_prop in Hv as [Hc He].
  apply Z.eqb_eq in Hc. apply Z.leb_le in He. auto.
Qed.


(** *** Addition of positive numbers *)

(** The sum of two positive finite numbers that stays below 8 is a positive
    finite number within the relative error [2 ^ -50] of the exact sum. *)
Lemma add_positive (x y : float) (mx my : positive) (ex ey : Z) :
  Prim2SF x = S754_finite false mx ex ->
  Prim2SF y = S754_finite false my ey ->
  (value (Zpos mx) ex + value (Zpos my) ey <= 8)%Q ->
  exists mz ez,
    Prim2SF (x + y) = S754_finite false mz ez
    /\ ((1 - pow2 (-50)) * (value (Zpos mx) ex + value (Zpos my) ey) <= value (Zpos mz) ez
        /\ value (Zpos mz) ez
           <= (1 + pow2 (-50)) * (value (Zpos mx) ex + value (Zpos my) ey))%Q.
Proof.
  intros Hx Hy Hsmall.
  destruct (finite_valid _ _ _ _ Hx) as [Hcx Hbx].
  destruct (finite_valid _ _ _ _ Hy) as [Hcy Hby].
  rewrite add_spec, Hx, Hy. unfold SF64add, SFadd. cbn [cond_Zopp].
  set (ez := Z.min ex ey).
  destruct (shl_align_spec mx ex ez) as (_ & Ha & _).
  destruct (shl_align_spec my ey ez) as (_ & Hb & _).
  set (a := fst (shl_align mx ex ez)) in *.
  set (b := fst (shl_align my ey ez)) in *.
  replace (Z.min ex ez) with ez in Ha by lia.
  replace (Z.min ey ez) with ez in Hb by lia.
  change (Zpos a + Zpos b) with (Zpos (a + b)).
  cbn [binary_normalize]. unfold binary_round.
  destruct (shl_align_spec (a + b) ez
              (fexp prec emax (Zpos (digits2_pos (a + b)) + ez))) as (He0 & Hmz & Hdz).
  destruct (shl_align (a + b) ez (fexp prec emax (Zpos (digits2_pos (a + b)) + ez)))
    as [mz e0].
  cbn [fst snd] in He0, Hmz, Hdz.
  set (D := Zpos (digits2_pos (a + b)) + ez) in *.
  rewrite <- He0 in Hmz, Hdz.
  destruct (binary_round_aux_spec false (Zpos mz) e0 loc_Exact ltac:(lia))
    as (m1 & m2 & e1 & e2 & He1 & He2 & Hm1 & Hexact & Hm2 & ->).
  cbn [Zdigits2] in He1. rewrite Hdz in He1.
  assert (- 1074 <= e0) as Hemin
    by (unfold fexp, SpecFloat.emin, prec, emax in *; lia).
  assert (e0 <= fexp prec emax D) as Haligned by lia.
  pose proof (rounded_exponent_bound (Zpos mz) e0 m1 D e1 e2 ltac:(lia)
                ltac:(cbn [Zdigits2]; lia) Haligned
                ltac:(cbn [Zdigits2]; rewrite Hdz; exact He1) Hm1 He2) as Hbound.
  pose proof (two_truncations (Zpos mz) (e1 - e0) (e2 - e1) m1 m2
                ltac:(lia) ltac:(lia) ltac:(lia) Hm1 Hm2) as Htr.
  replace (e1 - e0 + (e2 - e1)) with (e2 - e0) in Htr by lia.
  (* the exact sum *)
  assert (value (Zpos mz) e0 == value (Zpos mx) ex + value (Zpos my) ey)%Q as Hval.
  { rewrite Hmz, value_shift by lia. replace (e0 + (ez - e0)) with ez by lia.
    rewrite Pos2Z.inj_add, value_plus, Ha, Hb, !value_shift by lia.
    replace (ez + (ex - ez)) with ex by lia.
    replace (ez + (ey - ez)) with ey by lia. reflexivity. }
  rewrite <- Hval in *.
  (* its magnitude *)
  assert (D <= 4) as HD.
  { destruct (value_bounds mz e0) as [Hlo _].
    assert (pow2 (Zpos (digits2_pos mz) + e0 - 1) < pow2 4)%Q as Hlt
      by (assert (pow2 4 == 16)%Q by reflexivity; lra).
    apply pow2_lt_inv in Hlt. lia. }
  pose proof (pow2_pos (-50)) as HU.
  pose proof (value_pos (Zpos mz) e0 ltac:(lia)) as Hvpos.
  destruct (Z.eq_dec e2 e0) as [Hsame|Hdiff].
  - (* nothing is shifted out: the sum is exact *)
    assert (e1 = e0) as He10 by lia.
    rewrite (Hexact eq_refl He10) in Hm2. rewrite Hsame in Hm2.
    rewrite He10, Z.sub_diag, Z.pow_0_r, Z.div_1_r in Hm2. subst m2.
    rewrite Hsame. replace (e0 <=? emax - prec)%Z with true
      by (symmetry; apply Z.leb_le; unfold emax, prec in *; lia).
    exists mz, e0. split; [reflexivity|]. rewrite <- Hval. split; nra.
  - (* at least one bit is shifted out: the result is a normal number *)
    assert (0 < e2 - e0) as Ht by lia.
    assert (e2 <= D - 52) as He2D
      by (unfold fexp, SpecFloat.emin, prec, emax in *; lia).
    destruct (digits2_pos_bounds mz) as [Hlo _].
    assert (2 ^ (e2 - e0) * 2 ^ 51 <= Zpos mz) as Hrel.
    { rewrite <- Z.pow_add_r by lia.
      etransitivity; [|exact Hlo]. apply Z.pow_le_mono_r; lia. }
    assert (0 < 2 ^ (e2 - e0)) as Htpos by (apply Z.pow_pos_nonneg; lia).
    destruct m2 as [|p|p]; [nia| |nia].
    replace (e2 <=? emax - prec)%Z with true
      by (symmetry; apply Z.leb_le; unfold emax, prec in *; lia).
    exists p, e2. split; [reflexivity|].
    assert (value (Zpos p) e2 == value (Zpos p * 2 ^ (e2 - e0)) e0)%Q as ->
      by (rewrite value_shift by lia; replace (e0 + (e2 - e0)) with e2 by lia; reflexivity).
    assert (Zpos mz <= Zpos p * 2 ^ (e2 - e0) + 2 ^ (e2 - e0)) as H1 by lia.
    assert (Zpos p * 2 ^ (e2 - e0) <= Zpos mz + 2 ^ (e2 - e0)) as H2 by lia.
    assert (2 ^ (e2 - e0) * 2 ^ 50 <= Zpos mz) as H3 by lia.
    rewrite Zle_Qle in H1, H2, H3. rewrite Zlt_Qlt in Htpos.
    rewrite inject_Z_plus, inject_Z_mult in H1.
    rewrite inject_Z_plus, inject_Z_mult in H2.
    rewrite inject_Z_mult in H3.
    change (inject_Z 0) with 0%Q in Htpos.
    unfold value in *. rewrite inject_Z_mult.
    assert (pow2 (-50) * inject_Z (2 ^ 50) == 1)%Q as HUC by reflexivity.
    assert (0 < inject_Z (2 ^ 50))%Q as HC by reflexivity.
    set (M := inject_Z (Zpos mz)) in *. set (R := inject_Z (Zpos p)) in *.
    set (T := inject_Z (2 ^ (e2 - e0)%Z)) in *. set (C := inject_Z (2 ^ 50)) in *.
    set (U := pow2 (-50)) in *. set (P := pow2 e0) in *.
    pose proof (pow2_pos e0) as HP. fold P in HP.
    assert (T <= U * M)%Q as HT.
    { assert (T == U * (T * C))%Q as -> by (rewrite <- (Qmult_1_l T) at 1; rewrite <- HUC; ring).
      apply Qmult_le_l; [exact HU|]. exact H3. }
    rewrite <- Hval. fold M P. split.
    + apply Qle_trans with ((M - T) * P)%Q; [|apply Qmult_le_compat_r; lra].
      assert ((1 - U) * (M * P) == (M - U * M) * P)%Q as -> by ring.
      apply Qmult_le_compat_r; lra.
    + apply Qle_trans with ((M + T) * P)%Q; [apply Qmult_le_compat_r; lra|].
      assert ((1 + U) * (M * P) == (M + U * M) * P)%Q as -> by ring.
      apply Qmult_le_compat_r; lra.
Qed.


(** *** Division of positive numbers *)

(** The integer quotient [SFdiv_core_binary] hands to the rounding step. *)
Lemma SFdiv_core_binary_spec (m1 e1 m2 e2 : Z) :
  0 < m1 -> 0 < m2 ->
  let e' := Z.min (fexp prec emax (Zdigits2 m1 + e1 - (Zdigits2 m2 + e2))) (e1 - e2) in
  exists l,
    SFdiv_core_binary prec emax m1 e1 m2 e2 = (m1 * 2 ^ (e1 - e2 - e') / m2, e', l).
Proof.
  intros H1 H2 e'. unfold SFdiv_core_binary. fold e'.
  assert (0 <= e1 - e2 - e') as Hs by lia.
  assert (match e1 - e2 - e' with
          | Z0 => m1
          | Zpos _ => Z.shiftl m1 (e1 - e2 - e')
          | Zneg _ => 0
          end = m1 * 2 ^ (e1 - e2 - e')) as ->.
  { destruct (e1 - e2 - e') as [|s|s] eqn:Hse; [cbn; lia| |lia].
    now rewrite Z.shiftl_mul_pow2. }
  unfold Z.div. destruct (Z.div_eucl (m1 * 2 ^ (e1 - e2 - e')) m2) as [q r].
  eexists. reflexivity.
Qed.

(** The quotient of two positive finite numbers, when it is below 2, is zero
    or a positive finite number [q] with
    [|q * y - x| <= 2^-50 * x + 2^-1074 * y]. *)
Lemma div_positive (x y : float) (mx my : positive) (ex ey : Z) :
  Prim2SF x = S754_finite false mx ex ->
  Prim2SF y = S754_finite false my ey ->
  (value (Zpos mx) ex <= 2 * value (Zpos my) ey)%Q ->
  exists q,
    exact (x / y) = Some q
    /\ (0 <= q)%Q
    /\ (value (Zpos mx) ex
          - (pow2 (-50) * value (Zpos mx) ex + pow2 (-1074) * value (Zpos my) ey)
        <= q * value (Zpos my) ey
        /\ q * value (Zpos my) ey
           <= value (Zpos mx) ex
              + (pow2 (-50) * value (Zpos mx) ex + pow2 (-1074) * value (Zpos my) ey))%Q.
Proof.
  intros Hx Hy Hsmall.
  set (X := value (Zpos mx) ex) in *. set (Y := value (Zpos my) ey) in *.
  assert (Prim2SF (x / y)
          = let '(mz, ez, lz) := SFdiv_core_binary prec emax (Zpos mx) ex (Zpos my) ey in
            binary_round_aux prec emax false mz ez lz) as Hdiv
    by (rewrite div_spec, Hx, Hy; reflexivity).
  destruct (SFdiv_core_binary_spec (Zpos mx) ex (Zpos my) ey ltac:(lia) ltac:(lia))
    as [l Hcore].
  rewrite Hcore in Hdiv. clear Hcore. cbn [Zdigits2] in Hdiv.
  set (d1 := Zpos (digits2_pos mx)) in *. set (d2 := Zpos (digits2_pos my)) in *.
  set (E := d1 + ex - (d2 + ey)) in *.
  set (e' := Z.min (fexp prec emax E) (ex - ey)) in *.
  set (s := ex - ey - e') in *.
  set (q := Zpos mx * 2 ^ s / Zpos my) in *.
  assert (0 <= s) as Hs by lia.
  assert (0 < 2 ^ s) as Hspos by (apply Z.pow_pos_nonneg; lia).
  assert (0 <= q) as Hq by (apply Z.div_pos; lia).
  pose proof (Z.div_mod (Zpos mx * 2 ^ s) (Zpos my) ltac:(lia)) as Hdm.
  pose proof (Z.mod_pos_bound (Zpos mx * 2 ^ s) (Zpos my) ltac:(lia)) as Hr.
  fold q in Hdm.
  destruct (binary_round_aux_spec false q e' l Hq)
    as (m1 & mq & e1 & ef & He1 & Hef & Hm1 & _ & Hmq & Hres).
  rewrite Hres in Hdiv. clear Hres.
  (* magnitudes *)
  destruct (value_bounds mx ex) as [HXlo HXhi]. destruct (value_bounds my ey) as [HYlo HYhi].
  fold X d1 in HXlo, HXhi. fold Y d2 in HYlo, HYhi.
  pose proof (value_pos (Zpos mx) ex ltac:(lia)) as HXpos. fold X in HXpos.
  pose proof (value_pos (Zpos my) ey ltac:(lia)) as HYpos. fold Y in HYpos.
  assert (E <= 1) as HE.
  { assert (pow2 (d1 + ex - 1) < pow2 (d2 + ey + 1))%Q as Hlt.
    { rewrite (pow2_add (d2 + ey) 1). assert (pow2 1 == 2)%Q by reflexivity. nra. }
    apply pow2_lt_inv in Hlt. lia. }
  assert (pow2 (E - 1) * Y <= X)%Q as HEY.
  { apply Qle_trans with (pow2 (E - 1) * pow2 (d2 + ey))%Q.
    - pose proof (pow2_pos (E - 1)). nra.
    - rewrite <- pow2_add. replace (E - 1 + (d2 + ey)) with (d1 + ex - 1) by lia.
      exact HXlo. }
  (* the exponent of the result *)
  assert (Zdigits2 q + e' <= Z.max (E + 1) e') as Hdig.
  { destruct (Z.eq_dec q 0) as [->|Hq0]; [cbn; lia|].
    destruct (digits2_pos_bounds mx) as [_ Hmx]. destruct (digits2_pos_bounds my) as [Hmy _].
    fold d1 in Hmx. fold d2 in Hmy.
    assert (0 < 2 ^ (d2 - 1)) as Hd2 by (apply Z.pow_pos_nonneg; lia).
    assert (q * 2 ^ (d2 - 1) < 2 ^ (d1 + s)) as Hlt.
    { rewrite Z.pow_add_r by lia. nia. }
    assert (d2 - 1 < d1 + s) as Hexp.
    { destruct (Z_lt_le_dec (d2 - 1) (d1 + s)) as [|Hge]; [assumption|exfalso].
      assert (2 ^ (d1 + s) <= 2 ^ (d2 - 1)) by (apply Z.pow_le_mono_r; lia). nia. }
    assert (Zdigits2 q <= d1 + s - (d2 - 1)); [|lia].
    apply Zdigits2_le; [lia|lia|].
    apply (Z.mul_lt_mono_pos_r (2 ^ (d2 - 1))); [exact Hd2|].
    rewrite <- Z.pow_add_r by lia.
    replace (d1 + s - (d2 - 1) + (d2 - 1)) with (d1 + s) by lia. exact Hlt. }
  assert (e' <= fexp prec emax (Z.max (E + 1) e')) as Haligned
    by (unfold fexp, SpecFloat.emin, prec, emax in *; lia).
  pose proof (rounded_exponent_bound q e' m1 (Z.max (E + 1) e') e1 ef
                Hq Hdig Haligned He1 Hm1 Hef) as Hbound.
  assert (ef <= Z.max (E - 51) (-1074)) as HefE
    by (unfold fexp, SpecFloat.emin, prec, emax in *; lia).
  pose proof (two_truncations q (e1 - e') (ef - e1) m1 mq
                Hq ltac:(lia) ltac:(lia) Hm1 Hmq) as Htr.
  replace (e1 - e' + (ef - e1)) with (ef - e') in Htr by lia.
  assert (0 <= ef - e') as Ht by lia.
  assert (0 < 2 ^ (ef - e')) as Htpos by (apply Z.pow_pos_nonneg; lia).
  assert (0 <= m1) as Hm1pos
    by (assert (0 <= q / 2 ^ (e1 - e')) by (apply Z.div_pos; [lia|apply Z.pow_pos_nonneg; lia]);
        lia).
  assert (0 <= mq) as Hmqpos
    by (rewrite Hmq; apply Z.div_pos; [lia|apply Z.pow_pos_nonneg; lia]).
  (* the error, in units of the exponent [e' + ey] *)
  assert (Zpos mx * 2 ^ s <= mq * 2 ^ (ef - e') * Zpos my + 2 ^ (ef - e') * Zpos my) as H1
    by nia.
  assert (mq * 2 ^ (ef - e') * Zpos my <= Zpos mx * 2 ^ s + 2 ^ (ef - e') * Zpos my) as H2
    by nia.
  assert (X == value (Zpos mx * 2 ^ s) (e' + ey))%Q as HXv
    by (rewrite value_shift by lia; replace (e' + ey + s) with ex by lia; reflexivity).
  assert (value mq ef * Y == value (mq * 2 ^ (ef - e') * Zpos my) (e' + ey))%Q as HQv.
  { unfold Y, value. replace ef with (e' + (ef - e')) at 1 by lia.
    rewrite !inject_Z_mult, !pow2_add, (pow2_Z (ef - e')) by lia. ring. }
  assert (pow2 ef * Y == value (2 ^ (ef - e') * Zpos my) (e' + ey))%Q as HGv.
  { unfold Y, value. replace ef with (e' + (ef - e')) at 1 by lia.
    rewrite !inject_Z_mult, !pow2_add, (pow2_Z (ef - e')) by lia. ring. }
  assert (X - pow2 ef * Y <= value mq ef * Y /\ value mq ef * Y <= X + pow2 ef * Y)%Q
    as [Hlo Hhi].
  { rewrite HXv, HQv, HGv. unfold value.
    rewrite Zle_Qle in H1, H2.
    rewrite inject_Z_plus in H1. rewrite inject_Z_plus in H2.
    pose proof (pow2_pos (e' + ey)). split; nra. }
  assert (pow2 ef * Y <= pow2 (-50) * X + pow2 (-1074) * Y)%Q as Herr.
  { pose proof (pow2_pos (-50)). pose proof (pow2_pos (-1074)).
    destruct (Z_le_gt_dec ef (-1074)) as [Hsub|Hnorm].
    - apply pow2_le in Hsub. nra.
    - assert (ef <= -50 + (E - 1)) as Hle by lia. apply pow2_le in Hle.
      rewrite pow2_add in Hle. nra. }
  assert (0 <= value mq ef)%Q as Hnonneg.
  { unfold value. rewrite Zle_Qle in Hmqpos. change (inject_Z 0) with 0%Q in Hmqpos.
    pose proof (pow2_pos ef). nra. }
  assert (exists q0, exact (x / y) = Some q0 /\ (q0 == value mq ef)%Q) as (q0 & Hq0 & Hq0v).
  { destruct mq as [|p|p]; [| |lia].
    - exists 0%Q. split; [now apply (exact_zero _ false)|]. unfold value. ring.
    - replace (ef <=? emax - prec)%Z with true in Hdiv
        by (symmetry; apply Z.leb_le; unfold emax, prec; lia).
      now apply exact_positive. }
  exists q0. split; [exact Hq0|]. rewrite Hq0v.
  split; [exact Hnonneg|]. split; lra.
Qed.


(** *** Weights between 0 and 1 *)

Lemma Prim2SF_zero : Prim2SF 0 = S754_zero false.
Proof. vm_compute. reflexivity. Qed.

Lemma Prim2SF_one : Prim2SF 1 = S754_finite false 4503599627370496 (-52).
Proof. vm_compute. reflexivity. Qed.

Lemma positive_up_to_one_spec (w : float) :
  positive_up_to_one w = true ->
  exists m e, Prim2SF w = S754_finite false m e /\ (value (Zpos m) e <= 1)%Q.
Proof.
  unfold positive_up_to_one. intros H. apply andb_prop in H as [Hpos Hle].
  rewrite ltb_spec in Hpos. rewrite leb_spec in Hle.
  rewrite Prim2SF_zero in Hpos. rewrite Prim2SF_one in Hle.
  destruct (Prim2SF w) as [s|s| |s m e] eqn:Hw; try discriminate.
  - destruct s; discriminate.
  - destruct s; [discriminate|].
    exists m, e. split; [reflexivity|].
    destruct (finite_valid _ _ _ _ Hw) as [Hc _].
    unfold SFleb, SFcompare in Hle.
    destruct (Z.compare_spec e (-52)) as [He|He|He]; [| |discriminate].
    + assert (Zpos m <= 4503599627370496) as Hm.
      { pose proof (Pos.compare_spec m 4503599627370496) as Hcmp.
        unfold Pos.compare in Hcmp.
        destruct Hcmp as [->|Hlt|_]; [reflexivity| |discriminate].
        apply Z.lt_le_incl, Pos2Z.pos_lt_pos, Hlt. }
      subst e. unfold value.
      assert (pow2 (-52) == 1 # 4503599627370496)%Q as -> by reflexivity.
      rewrite Zle_Qle in Hm.
      change (inject_Z 4503599627370496) with (4503599627370496 # 1)%Q in Hm. lra.
    + destruct (value_bounds m e) as [_ Hhi].
      assert (Zpos (digits2_pos m) + e <= 0) as Hd
        by (unfold fexp, SpecFloat.emin, prec, emax in Hc; lia).
      apply pow2_le in Hd. assert (pow2 0 == 1)%Q by reflexivity. lra.
Qed.

End Binary64Facts.

(** ** The style mixer *)

Module MixerFacts.
Import StyleMixer Binary64Facts.

(** *** What each action does to the entries *)

Lemma perform_add now styles :
  perform (add now) styles
  = if bool_decide (length styles < 4)%nat
    then styles ++ [mkStyle now 0.5%float ("Style " +:+ pretty (length styles + 1)%nat)]
    else styles.
Proof.
  unfold perform, perform_in, handler, addStyle; cbn.
  case_bool_decide; reflexivity.
Qed.

Lemma perform_remove id0 styles :
  perform (remove id0) styles
  = if bool_decide (1 < length styles)%nat
    then filter (fun s => id s <> id0) styles
    else styles.
Proof.
  unfold perform, perform_in, handler, removeStyle; cbn.
  case_bool_decide; reflexivity.
Qed.

Lemma perform_slide id0 parsed styles :
  perform (slide id0 parsed) styles
  = map (fun s => if bool_decide (id s = id0)
                  then mkStyle (id s) parsed (name s) else s) styles.
Proof. reflexivity. Qed.

Lemma perform_mix styles : perform mix styles = styles.
Proof. reflexivity. Qed.

(** At the cap "Add Style" does nothing at all: no setter is called, nothing
    is thrown or reported. *)
Lemma addStyle_at_cap styles :
  length styles = 4%nat -> addStyle styles = Done.
Proof.
  intros H. unfold addStyle. rewrite bool_decide_eq_false_2; [reflexivity | lia].
Qed.

(** On the last entry the remove button does nothing at all. *)
Lemma removeStyle_last styles id0 :
  length styles = 1%nat -> removeStyle styles id0 = Done.
Proof.
  intros H. unfold removeStyle. rewrite bool_decide_eq_false_2; [reflexivity | lia].
Qed.

(** Removing by id drops at most one entry when the ids are distinct. *)
Lemma filter_keeps_all {A} (P : A -> Prop) `{forall x, Decision (P x)} (l : list A) :
  Forall P l -> filter P l = l.
Proof.
  induction 1 as [|x l Hx _ IH]; [reflexivity|].
  rewrite filter_cons_True by assumption. now rewrite IH.
Qed.

Lemma filter_id_length (styles : list Style) id0 :
  NoDup (map id styles) ->
  (length styles <= Datatypes.S (length (filter (fun s => id s <> id0) styles)))%nat.
Proof.
  induction styles as [|s styles IH]; [cbn; lia|].
  cbn [map]. intros Hnd. apply NoDup_cons in Hnd as [Hs Hnd].
  rewrite filter_cons. case_decide as Hid; cbn [length].
  - specialize (IH Hnd). lia.
  - assert (id s = id0) as Heq by (destruct (decide (id s = id0)); tauto).
    rewrite filter_keeps_all; [lia|].
    apply Forall_forall. intros x Hx Hxid. apply Hs.
    rewrite Heq, <- Hxid. apply list_elem_of_fmap. eauto.
Qed.

Lemma filter_id_NoDup (styles : list Style) id0 :
  NoDup (map id styles) ->
  NoDup (map id (filter (fun s => id s <> id0) styles)).
Proof.
  intros Hnd. eapply sublist_NoDup; [exact Hnd|].
  apply fmap_sublist, sublist_filter.
Qed.

Lemma reachable_bounds st :
  reachable st -> (1 <= length st <= 4)%nat /\ NoDup (map id st).
Proof.
  induction 1 as [|st now Hst [IHlen IHnd] Hfresh|st id0 Hst [IHlen IHnd]
                  |st id0 parsed Hst [IHlen IHnd]|st Hst IH].
  - unfold initial. cbn. split; [lia|]. repeat constructor. set_solver.
  - rewrite perform_add. case_bool_decide; [|auto].
    rewrite length_app, map_app. cbn. split; [lia|].
    apply NoDup_app. repeat split; auto.
    + intros x Hx Hx'. apply list_elem_of_singleton in Hx'. now subst.
    + repeat constructor. set_solver.
  - rewrite perform_remove. case_bool_decide; [|auto].
    split; [|now apply filter_id_NoDup].
    pose proof (filter_id_length st id0 IHnd).
    pose proof (length_filter (fun s => id s <> id0) st). lia.
  - rewrite perform_slide. split.
    + now rewrite length_map.
    + rewrite map_map.
      erewrite map_ext; [exact IHnd|].
      intros s. cbn. now case_bool_decide.
  - now rewrite perform_mix.
Qed.

(** *** Normalisation *)

Lemma fold_left_weights (styles : list Style) (acc : float) :
  fold_left (fun sum s => (sum + weight s)%float) styles acc
  = fold_left (fun sum w => (sum + w)%float) (map weight styles) acc.
Proof.
  revert acc. induction styles as [|s styles IH]; intros acc; cbn; [reflexivity|].
  apply IH.
Qed.

Lemma normalizeWeights_weights (styles : list Style) :
  map weight (normalizeWeights styles) = normalized (map weight styles).
Proof.
  unfold normalizeWeights, normalized.
  rewrite fold_left_weights, !map_map. reflexivity.
Qed.

(** [normalizeWeights] copies [id] and [name] and keeps the order. *)
Lemma normalizeWeights_labels (styles : list Style) :
  map id (normalizeWeights styles) = map id styles
  /\ map name (normalizeWeights styles) = map name styles.
Proof.
  unfold normalizeWeights. rewrite !map_map. split; reflexivity.
Qed.

Lemma exact_quotients_sum (weights : list float) (divisor : Q) :
  forall targets sum,
    mapM (fun w => (fun q => Qred (q / divisor)) <$> exact w) weights = Some targets ->
    exact_sum weights = Some sum ->
    (Qsum targets == sum / divisor)%Q.
Proof.
  induction weights as [|w weights IH]; intros targets sum; cbn.
  - intros [= <-] [= <-]. cbn. unfold Qdiv. ring.
  - destruct (exact w) as [q|]; cbn; [|discriminate].
    destruct (mapM _ weights) as [rest|] eqn:Hrest; cbn; [|discriminate].
    destruct (exact_sum weights) as [r|]; [|discriminate].
    intros [= <-] [= <-]. cbn.
    rewrite (IH rest r eq_refl eq_refl), !Qred_correct.
    unfold Qdiv. ring.
Qed.

(** The formula of the specification sums to exactly 1, for any number of
    weights. *)
Lemma normalized_exactly_sums_to_one (weights : list float) (targets : list Q) :
  normalized_exactly weights = Some targets -> (Qsum targets == 1)%Q.
Proof.
  unfold normalized_exactly.
  destruct (exact_sum weights) as [sum|] eqn:Hsum; [|discriminate].
  destruct (Qeq_bool sum 0) eqn:Hzero; [discriminate|].
  intros Htargets.
  rewrite (exact_quotients_sum _ _ _ _ Htargets Hsum).
  apply Qmult_inv_r. intros H. apply Qeq_bool_neq in Hzero. contradiction.
Qed.

(** *** The running total *)

Lemma lengthQ_nil {A} : (lengthQ (@nil A) == 0)%Q.
Proof. reflexivity. Qed.

Lemma lengthQ_cons {A} (x : A) (l : list A) : (lengthQ (x :: l) == lengthQ l + 1)%Q.
Proof.
  unfold lengthQ. cbn [length]. rewrite Nat2Z.inj_succ, <- Z.add_1_r, inject_Z_plus.
  reflexivity.
Qed.

Lemma lengthQ_nonneg {A} (l : list A) : (0 <= lengthQ l)%Q.
Proof.
  unfold lengthQ. change 0%Q with (inject_Z 0). rewrite <- Zle_Qle. lia.
Qed.

Lemma lengthQ_le {A} (l : list A) (n : nat) :
  (length l <= n)%nat -> (lengthQ l <= inject_Z (Z.of_nat n))%Q.
Proof. intros H. unfold lengthQ. rewrite <- Zle_Qle. lia. Qed.

(** One more addition widens the relative error of the running total by
    at most [2 * u]. *)
Lemma sum_step (u c S A W A' : Q) :
  (0 <= u <= 1)%Q -> (0 <= c <= 1)%Q -> (0 <= S)%Q -> (0 <= W)%Q ->
  ((1 - c) * S <= A /\ A <= (1 + c) * S)%Q ->
  ((1 - u) * (A + W) <= A' /\ A' <= (1 + u) * (A + W))%Q ->
  ((1 - (c + 2 * u)) * (S + W) <= A' /\ A' <= (1 + (c + 2 * u)) * (S + W))%Q.
Proof.
  intros Hu Hc HS HW HA HA'.
  assert (0 <= u * S)%Q by nra. assert (0 <= c * S)%Q by nra.
  assert (0 <= u * W)%Q by nra. assert (0 <= c * W)%Q by nra.
  assert (0 <= u * (c * S) <= u * S)%Q by nra.
  assert (u * A <= u * S + u * (c * S))%Q by nra.
  split; nra.
Qed.

Lemma pow2_m50 : (pow2 (-50) == 1 # 1125899906842624)%Q.
Proof. reflexivity. Qed.

(** The left-to-right binary64 sum of up to four weights in (0, 1], started
    from a positive running total, stays finite and within a small relative
    error of the exact sum. *)
Lemma total_bound (ws : list float) :
  Forall (fun w => positive_up_to_one w = true) ws ->
  forall (acc : float) (ma : positive) (ea : Z) (S c : Q),
    Prim2SF acc = S754_finite false ma ea ->
    (0 <= S)%Q -> (0 <= c)%Q ->
    (c + 2 * pow2 (-50) * lengthQ ws <= 1)%Q ->
    (S + lengthQ ws <= 4)%Q ->
    ((1 - c) * S <= value (Zpos ma) ea /\ value (Zpos ma) ea <= (1 + c) * S)%Q ->
    exists mt et sw,
      Prim2SF (fold_left (fun sum w => (sum + w)%float) ws acc) = S754_finite false mt et
      /\ exact_sum ws = Some sw
      /\ (0 <= sw)%Q
      /\ ((1 - (c + 2 * pow2 (-50) * lengthQ ws)) * (S + sw) <= value (Zpos mt) et
          /\ value (Zpos mt) et <= (1 + (c + 2 * pow2 (-50) * lengthQ ws)) * (S + sw))%Q.
Proof.
  induction 1 as [|w ws Hw _ IH]; intros acc ma ea S c Hacc HS Hc Hcl HSl HA.
  - exists ma, ea, 0%Q. cbn [fold_left exact_sum]. rewrite lengthQ_nil.
    split; [exact Hacc|]. split; [reflexivity|]. split; [lra|].
    split; nra.
  - destruct (positive_up_to_one_spec w Hw) as (m & e & Hwf & HW1).
    pose proof (value_pos (Zpos m) e ltac:(lia)) as HW0.
    destruct (exact_positive w m e Hwf) as (qw & Hqw & Hqwv).
    rewrite lengthQ_cons in Hcl, HSl. pose proof (lengthQ_nonneg ws) as Hlen.
    pose proof pow2_m50 as Hu. set (u := pow2 (-50)) in *.
    set (A := value (Zpos ma) ea) in *. set (W := value (Zpos m) e) in *.
    assert (0 <= u <= 1)%Q as Hu01 by (rewrite Hu; split; lra).
    assert (c <= 1)%Q as Hc1 by nra.
    assert (A + W <= 8)%Q as Hsmall by nra.
    destruct (add_positive acc w ma m ea e Hacc Hwf Hsmall) as (mz & ez & Hsum & Hrel).
    fold A W u in Hrel.
    pose proof (sum_step u c S A W _ Hu01 (conj Hc Hc1) HS ltac:(lra) HA Hrel) as Hstep.
    destruct (IH (acc + w)%float mz ez (S + W)%Q (c + 2 * u)%Q Hsum
                ltac:(lra) ltac:(lra) ltac:(fold u; nra) ltac:(lra) Hstep)
      as (mt & et & sw & Htot & Hsw & Hsw0 & Hbound).
    exists mt, et, (Qred (qw + sw)). cbn [fold_left exact_sum].
    split; [exact Htot|]. rewrite Hqw, Hsw. split; [reflexivity|].
    rewrite Qred_correct, Hqwv, lengthQ_cons. fold W u in Hbound |- *.
    split; [lra|].
    assert ((c + 2 * u * (lengthQ ws + 1)) == (c + 2 * u + 2 * u * lengthQ ws))%Q as ->
      by ring.
    assert (S + (W + sw) == S + W + sw)%Q as -> by ring.
    exact Hbound.
Qed.

(** Every weight is at most the exact sum. *)
Lemma weights_below_sum (ws : list float) (sw : Q) :
  Forall (fun w => positive_up_to_one w = true) ws ->
  exact_sum ws = Some sw ->
  (0 <= sw)%Q
  /\ Forall (fun w => exists m e, Prim2SF w = S754_finite false m e
                                  /\ (value (Zpos m) e <= sw)%Q) ws.
Proof.
  intros Hws. revert sw. induction Hws as [|w ws Hw _ IH]; intros sw; cbn [exact_sum].
  - intros [= <-]. split; [lra|constructor].
  - destruct (positive_up_to_one_spec w Hw) as (m & e & Hwf & _).
    pose proof (value_pos (Zpos m) e ltac:(lia)) as HW0.
    destruct (exact_positive w m e Hwf) as (qw & Hqw & Hqwv). rewrite Hqw.
    destruct (exact_sum ws) as [r|]; [|discriminate].
    intros [= <-]. destruct (IH r eq_refl) as [Hr Hall].
    assert (Qred (qw + r) == value (Zpos m) e + r)%Q as Hsw
      by (now rewrite Qred_correct, Hqwv).
    split; [rewrite Hsw; lra|]. constructor.
    + exists m, e. split; [exact Hwf|]. rewrite Hsw. lra.
    + eapply Forall_impl; [exact Hall|]. cbn.
      intros w' (m' & e' & Hw' & Hle). exists m', e'. split; [exact Hw'|].
      rewrite Hsw. lra.
Qed.


(** *** The emitted weights *)

(** A weight divided by a total that is close to the exact sum [S] is close
    to the exact quotient. *)
Lemma quotient_close (w t : float) (m mt : positive) (e et : Z) (S : Q) :
  Prim2SF w = S754_finite false m e ->
  Prim2SF t = S754_finite false mt et ->
  (value (Zpos m) e <= S)%Q ->
  ((1 - 6 * pow2 (-50)) * S <= value (Zpos mt) et
   /\ value (Zpos mt) et <= (1 + 6 * pow2 (-50)) * S)%Q ->
  close_to (1 # 4000000) (w / t) (value (Zpos m) e / S).
Proof.
  intros Hw Ht HWS [HT1 HT2].
  pose proof (value_pos (Zpos m) e ltac:(lia)) as HW0.
  pose proof (value_pos (Zpos mt) et ltac:(lia)) as HT0.
  assert (pow2 (-1074) <= pow2 (-50))%Q as Heta by (apply pow2_le; lia).
  pose proof (pow2_pos (-1074)) as Heta0.
  rewrite pow2_m50 in HT1, HT2, Heta.
  set (W := value (Zpos m) e) in *. set (T := value (Zpos mt) et) in *.
  assert (0 < S)%Q as HS0 by lra.
  destruct (div_positive w t m mt e et Hw Ht ltac:(fold W T; lra))
    as (q & Hq & Hq0 & Hlo & Hhi).
  fold W T in Hlo, Hhi. rewrite pow2_m50 in Hlo, Hhi.
  set (eta := pow2 (-1074)) in *.
  exists q. split; [exact Hq|].
  assert (W / S * S == W)%Q as Htgt by (field; lra).
  set (tgt := (W / S)%Q) in *.
  assert (0 <= tgt <= 1)%Q as Htgt01 by (split; nra).
  assert (0 <= eta * T)%Q as HetaT by nra.
  assert (eta * T <= (1 # 1125899906842624) * T)%Q as HetaT' by nra.
  assert ((1 - 6 * (1 # 1125899906842624)) * W <= tgt * T
          /\ tgt * T <= (1 + 6 * (1 # 1125899906842624)) * W)%Q as [HtT1 HtT2].
  { assert (tgt * ((1 - 6 * (1 # 1125899906842624)) * S) <= tgt * T)%Q by nra.
    assert (tgt * T <= tgt * ((1 + 6 * (1 # 1125899906842624)) * S))%Q by nra.
    split; nra. }
  apply Qabs_Qle_condition. split.
  - apply (Qmult_le_r _ _ T HT0). nra.
  - apply (Qmult_le_r _ _ T HT0). nra.
Qed.


Lemma close_to_weaken (tol tol' : Q) (x : float) (target : Q) :
  (tol <= tol')%Q -> close_to tol x target -> close_to tol' x target.
Proof.
  intros Hle (q & Hq & Hclose). exists q. split; [exact Hq|]. lra.
Qed.

Lemma close_to_all_within (tol : Q) (outs : list float) (targets : list Q) :
  Forall2 (close_to tol) outs targets -> all_within tol targets outs = true.
Proof.
  induction 1 as [|o t outs targets (q & Hq & Hclose) _ IH]; cbn [all_within];
    [reflexivity|].
  rewrite Hq, IH, andb_true_r. now apply Qle_bool_iff.
Qed.

(** The exact sum of numbers that are close to targets is close to the sum
    of the targets. *)
Lemma close_to_sum (outs : list float) (targets : list Q) :
  Forall2 (close_to (1 # 4000000)) outs targets ->
  exists so,
    exact_sum outs = Some so
    /\ (Qabs (so - Qsum targets) <= (1 # 4000000) * lengthQ outs)%Q.
Proof.
  induction 1 as [|o t outs targets (q & Hq & Hclose) _ (so & Hso & IH)].
  - exists 0%Q. split; [reflexivity|]. rewrite lengthQ_nil.
    apply Qabs_Qle_condition. cbn. lra.
  - exists (Qred (q + so)). cbn [exact_sum]. rewrite Hq, Hso. split; [reflexivity|].
    rewrite Qred_correct, lengthQ_cons.
    change (Qsum (t :: targets)) with (t + Qsum targets)%Q.
    apply Qabs_Qle_condition in Hclose, IH. apply Qabs_Qle_condition. lra.
Qed.

(** Each weight divided by the binary64 total is close to its share of the
    exact sum [tot]. *)
Lemma quotients_close (ws : list float) (targets : list Q) (t : float)
    (mt : positive) (et : Z) (tot : Q) :
  Prim2SF t = S754_finite false mt et ->
  ((1 - 6 * pow2 (-50)) * tot <= value (Zpos mt) et
   /\ value (Zpos mt) et <= (1 + 6 * pow2 (-50)) * tot)%Q ->
  Forall (fun w => exists m e, Prim2SF w = S754_finite false m e
                               /\ (value (Zpos m) e <= tot)%Q) ws ->
  Forall2 (fun w target => (fun q => Qred (q / tot)) <$> exact w = Some target)
    ws targets ->
  Forall2 (fun w target => close_to (1 # 4000000) (w / t) target) ws targets.
Proof.
  intros Ht HT Hbelow Htargets.
  induction Htargets as [|w target ws targets Htarget _ IH]; [constructor|].
  apply Forall_cons in Hbelow as [(m & e & Hw & Hle) Hbelow].
  constructor; [|exact (IH Hbelow)].
  destruct (exact_positive w m e Hw) as (qw & Hqw & Hqwv).
  rewrite Hqw in Htarget. cbn in Htarget. injection Htarget as <-.
  destruct (quotient_close w t m mt e et tot Hw Ht Hle HT) as (q & Hq & Hclose).
  exists q. split; [exact Hq|].
  assert (Qred (qw / tot) == value (Zpos m) e / tot)%Q as ->
    by (now rewrite Qred_correct, Hqwv).
  exact Hclose.
Qed.

(** One to four weights in (0, 1]: the formula of the specification is
    defined, and every weight [normalized] computes is within [2.5e-7] of
    it. *)
Lemma normalized_close (ws : list float) :
  (1 <= length ws <= 4)%nat ->
  Forall (fun w => positive_up_to_one w = true) ws ->
  exists targets,
    normalized_exactly ws = Some targets
    /\ Forall2 (close_to (1 # 4000000)) (normalized ws) targets.
Proof.
  intros Hlen Hws.
  destruct ws as [|w1 rest]; [cbn in Hlen; lia|].
  pose proof Hws as Hws'. apply Forall_cons in Hws' as [Hw1 Hrest].
  destruct (positive_up_to_one_spec w1 Hw1) as (m1 & e1 & Hw1f & Hw1le).
  pose proof (value_pos (Zpos m1) e1 ltac:(lia)) as HW0.
  destruct (exact_positive w1 m1 e1 Hw1f) as (q1 & Hq1 & Hq1v).
  (* adding the first weight to 0 is exact *)
  assert (Prim2SF (0 + w1) = S754_finite false m1 e1) as Hfirst
    by (rewrite add_spec, Prim2SF_zero, Hw1f; reflexivity).
  assert (lengthQ rest <= 3)%Q as Hl3
    by (apply (lengthQ_le rest 3); cbn in Hlen; lia).
  pose proof (lengthQ_nonneg rest) as Hl0.
  pose proof pow2_m50 as Hu.
  destruct (total_bound rest Hrest (0 + w1)%float m1 e1 (value (Zpos m1) e1) 0 Hfirst
              ltac:(lra) ltac:(lra) ltac:(rewrite Hu; lra) ltac:(lra)
              ltac:(split; lra))
    as (mt & et & sw & Htot & Hsw & Hsw0 & Hb1 & Hb2).
  set (W1 := value (Zpos m1) e1) in *.
  assert (exact_sum (w1 :: rest) = Some (Qred (q1 + sw))) as Hexact
    by (cbn [exact_sum]; rewrite Hq1, Hsw; reflexivity).
  assert (Qred (q1 + sw) == W1 + sw)%Q as Htotv by (now rewrite Qred_correct, Hq1v).
  set (tot := Qred (q1 + sw)) in *.
  destruct (weights_below_sum (w1 :: rest) tot Hws Hexact) as [_ Hbelow].
  rewrite <- Htotv in Hb1, Hb2. rewrite Hu in Hb1, Hb2.
  assert (0 < tot)%Q as Htot0 by lra.
  assert ((1 - 6 * pow2 (-50)) * tot <= value (Zpos mt) et
          /\ value (Zpos mt) et <= (1 + 6 * pow2 (-50)) * tot)%Q as HT
    by (rewrite Hu; split; nra).
  unfold normalized_exactly. rewrite Hexact.
  destruct (Qeq_bool tot 0) eqn:Hz; [apply Qeq_bool_iff in Hz; lra|].
  destruct (mapM_is_Some_2 (fun w => (fun q => Qred (q / tot)) <$> exact w) (w1 :: rest))
    as [targets Htargets].
  { eapply Forall_impl; [exact Hbelow|]. cbn. intros w (m & e & Hw & _).
    destruct (exact_positive w m e Hw) as (qw & Hqw & _). rewrite Hqw. cbn. eauto. }
  exists targets. split; [exact Htargets|].
  apply mapM_Some_1 in Htargets.
  unfold normalized. apply Forall2_fmap_l.
  exact (quotients_close _ _ _ mt et tot Htot HT Hbelow Htargets).
Qed.

(** Every positive value of the weight slider, like the initial weight 0.5,
    lies in that range. *)
Lemma slider_weights_in_range :
  Forall (fun w => positive_up_to_one w = true) positiveSliderWeights.
Proof. repeat constructor. Qed.

(** C4: "Mix Styles" passes to [onMixStyles] the entries with each weight
    replaced by [weight / total], [total] being the left-to-right sum of the
    weights in binary64 arithmetic, and it sets no state, so the displayed
    weights stay as they are.  For one to four entries whose weights are
    positive and at most 1 -- any binary64 values [w] with [0 < w <= 1],
    the range of an entry's weight -- the emitted weights sum to 1 within
    1e-6 (summed exactly), and each emitted weight is within 1e-6 of the
    exact quotient [weight_i / sum_j weight_j]. *)
Theorem mix_emits_normalized_weights (styles : list Style) :
  (1 <= length styles <= 4)%nat ->
  Forall (fun s => positive_up_to_one (weight s) = true) styles ->
  let total := fold_left (fun sum s => (sum + weight s)%float) styles 0%float in
  let out := map (fun s => mkStyle (id s) (weight s / total)%float (name s)) styles in
  emitted mix styles = [Called (onMixStyles out)]
  /\ perform mix styles = styles
  /\ within tolerance 1 (exact_sum (map weight out)) = true
  /\ exists targets,
       normalized_exactly (map weight styles) = Some targets
       /\ (Qsum targets == 1)%Q
       /\ all_within tolerance targets (map weight out) = true.
Proof.
  intros Hlen Hpos total out.
  change out with (normalizeWeights styles). clear out total.
  split; [reflexivity|]. split; [reflexivity|].
  rewrite normalizeWeights_weights.
  destruct (normalized_close (map weight styles)) as (targets & Htargets & Hclose).
  { now rewrite length_map. }
  { apply Forall_map. exact Hpos. }
  pose proof (normalized_exactly_sums_to_one _ _ Htargets) as Hone.
  split.
  - destruct (close_to_sum _ _ Hclose) as (so & Hso & Hsum).
    assert (lengthQ (normalized (map weight styles)) <= 4)%Q as Hl4.
    { apply (lengthQ_le _ 4). unfold normalized. rewrite !length_map. lia. }
    rewrite Hso. unfold within, tolerance. apply Qle_bool_iff.
    apply Qabs_Qle_condition in Hsum. apply Qabs_Qle_condition.
    rewrite Hone in Hsum. lra.
  - exists targets. split; [exact Htargets|]. split; [exact Hone|].
    apply close_to_all_within.
    eapply Forall2_impl; [exact Hclose|].
    intros x t. apply close_to_weaken. unfold tolerance. lra.
Qed.

Lemma mix_emits_normalized_weights_witness :
  emitted mix blend = [Called (onMixStyles (normalizeWeights blend))]
  /\ perform mix blend = blend
  /\ within tolerance 1 (exact_sum (map weight (normalizeWeights blend))) = true
  /\ exists targets,
       normalized_exactly (map weight blend) = Some targets
       /\ (Qsum targets == 1)%Q
       /\ all_within tolerance targets (map weight (normalizeWeights blend)) = true.
Proof.
  apply (mix_emits_normalized_weights blend).
  - cbn. lia.
  - repeat constructor.
Defined.

(** Beyond that range the total can overflow: two weights of 1e308 add up
    to infinity in binary64, and both emitted weights are 0. *)
Example huge_weights_overflow :
  (1e308 + 1e308)%float = infinity
  /\ normalized [1e308; 1e308]%float = [0; 0]%float.
Proof. split; vm_compute; reflexivity. Qed.

(** Whatever the entries, "Mix Styles" calls no setter and passes on
    [normalizeWeights]. *)
Lemma handleMix_sets_nothing (styles : list Style) :
  perform mix styles = styles
  /\ emitted mix styles = [Called (onMixStyles (normalizeWeights styles))].
Proof. split; reflexivity. Qed.

(** The emitted weights of [blend], in binary64. *)
Example blend_normalized :
  map weight (normalizeWeights blend) = [0.5; 0.3; 0.2]%float.
Proof. reflexivity. Qed.

(** *** All weights zero *)

(** The sum of zeros is zero and [0 / 0] is NaN: with every weight at the
    slider's minimum, every emitted weight is NaN. *)
Lemma normalizeWeights_zero (styles : list Style) :
  Forall (fun s => weight s = 0%float) styles ->
  Forall (fun s => weight s = nan) (normalizeWeights styles).
Proof.
  intros Hzero. unfold normalizeWeights.
  assert (fold_left (fun sum s => (sum + weight s)%float) styles 0%float = 0%float) as ->.
  { induction Hzero as [|s styles Hs _ IH]; cbn; [reflexivity|].
    rewrite Hs. exact IH. }
  apply Forall_map. eapply Forall_impl; [exact Hzero|].
  cbn. intros s ->. reflexivity.
Qed.

(** C5, at the input where the code departs from it: the only entry's slider
    is moved to 0, then "Mix Styles".  [normalizeWeights] divides by the zero
    total without any guard: the weight passed to [onMixStyles] is NaN, which
    is no number (it has no exact value). *)
Theorem mix_of_zero_weights_emits_nan :
  let zeroed := perform (slide 1 0%float) initial in
  zeroed = [mkStyle 1 0%float "Style 1"]
  /\ emitted mix zeroed = [Called (onMixStyles [mkStyle 1 nan "Style 1"])]
  /\ is_nan (0 / 0)%float = true
  /\ exact nan = None.
Proof. repeat split. Qed.

(** *** The number of entries *)

(** No action takes the mixer above four entries, whatever the state. *)
Lemma count_never_exceeds_four (a : Action) (st : State) :
  (length st <= 4)%nat -> (length (perform a st) <= 4)%nat.
Proof.
  intros H. destruct a as [now|id0|id0 parsed|].
  - rewrite perform_add. case_bool_decide; [|lia].
    rewrite length_app. cbn. lia.
  - rewrite perform_remove. case_bool_decide; [|lia].
    pose proof (length_filter (fun s => id s <> id0) st). lia.
  - rewrite perform_slide, length_map. lia.
  - now rewrite perform_mix.
Qed.

(** In every state with four entries "Add Style" is a silent no-op, and in
    every state with one entry so is the remove button: no setter is called
    and nothing is reported. *)
Lemma boundary_actions_are_silent (st : State) :
  (length st = 4%nat ->
   forall now, addStyle st = Done /\ perform (add now) st = st
               /\ emitted (add now) st = [])
  /\ (length st = 1%nat ->
      forall id0, removeStyle st id0 = Done /\ perform (remove id0) st = st
                  /\ emitted (remove id0) st = []).
Proof.
  split; intros Hlen x.
  - repeat split.
    + now apply addStyle_at_cap.
    + unfold perform, perform_in, handler. now rewrite addStyle_at_cap.
    + unfold emitted, perform_in, handler. now rewrite addStyle_at_cap.
  - repeat split.
    + now apply removeStyle_last.
    + unfold perform, perform_in, handler. now rewrite removeStyle_last.
    + unfold emitted, perform_in, handler. now rewrite removeStyle_last.
Qed.

(** C6, at the input where the code departs from it: two entries added at
    the same clock value share their id, and the remove button filters by
    id.  From the initial mixer: "Add Style" twice at clock 1700000000000,
    remove entry 1, remove entry 1700000000000.  The guard
    [styles.length > 1] passes with two entries, and the filter drops both:
    the mixer is left with no entry. *)
Theorem shared_id_empties_the_mixer :
  let twins :=
    perform (remove 1)
      (perform (add 1700000000000) (perform (add 1700000000000) initial)) in
  twins = [mkStyle 1700000000000 0.5%float "Style 2";
           mkStyle 1700000000000 0.5%float "Style 3"]
  /\ length twins = 2%nat
  /\ perform (remove 1700000000000) twins = []
  /\ length (perform (remove 1700000000000) twins) = 0%nat.
Proof. repeat split. Qed.

(** Four entries added at distinct clock values: a reachable state at the
    cap. *)
Lemma full_reachable : reachable full.
Proof.
  unfold full.
  repeat (apply reach_add;
          [|intros Hin; apply list_elem_of_In in Hin; vm_compute in Hin;
            intuition discriminate]).
  apply reach_initial.
Qed.

Example full_has_four_entries : map name full = ["Style 1"; "Style 2"; "Style 3"; "Style 4"].
Proof. reflexivity. Qed.

Example full_is_capped : perform (add 1700000012000) full = full.
Proof. reflexivity. Qed.

End MixerFacts.

(** ** The gallery *)

Module GalleryFacts.
Import Gallery Samples.

(** A confirmed delete sends exactly the [DELETE] request for that file. *)
Lemma delete_requests (net : Network) name st :
  exists rest, trace (confirmed_delete net name st) = Requested (deleteFromGallery name) :: rest.
Proof.
  unfold confirmed_delete, handleDelete. cbn.
  destruct (net _ (deleteFromGallery name)); cbn; eauto.
Qed.

(** In the event loop: a confirmed [handleDelete] sends the request and
    suspends.  When the request succeeds, whatever happened meanwhile, the
    list written is the list of the render the handler was created in
    without that file, and the selection is emptied; when it fails, nothing
    is written and the alert is shown. *)
Lemma handleDelete_suspends render name (sys : GalleryUI.GallerySystem) :
  exists resume,
    exec apply yes (handleDelete render name) sys
    = mkSystem (record (Requested (deleteFromGallery name)) (doc sys))
        (in_flight sys ++ [mkPending unit (deleteFromGallery name) resume])
    /\ (forall amb (now : GalleryUI.GallerySystem),
          state (doc (exec apply amb (resume (Resolved tt)) now))
          = mkState (filter (fun img => g_filename img <> name) (images render))
              (loading (state (doc now))) None)
    /\ (forall amb (now : GalleryUI.GallerySystem) message,
          state (doc (exec apply amb (resume (Rejected message)) now)) = state (doc now)
          /\ trace (doc (exec apply amb (resume (Rejected message)) now))
             = trace (doc now) ++ [Alerted "Failed to delete image"]).
Proof.
  eexists. split; [reflexivity|]. split.
  - intros amb now. reflexivity.
  - intros amb now message. split; reflexivity.
Qed.


(** [handleDelete] filters the list of the render it was created in.  When
    two deletes are in flight together, the one that settles last writes
    the list of its own render minus its own file: [sunset.png], deleted
    first, is back in the cached list. *)
Example second_delete_restores_first :
  images (state (doc (play apply GalleryUI.controls deletes two_deletes GalleryUI.boot)))
  = [sunset].
Proof. reflexivity. Qed.



(** C10: when the [DELETE] request fails, the gallery state is what it was
    -- the cached list still holds the entry, the selection is kept -- and
    the failure is reported with an alert. *)
Theorem failed_delete_changes_nothing (net : Network) name st message :
  net _ (deleteFromGallery name) = Rejected message ->
  state (confirmed_delete net name st) = st
  /\ images (state (confirmed_delete net name st)) = images st
  /\ selectedImage (state (confirmed_delete net name st)) = selectedImage st
  /\ trace (confirmed_delete net name st)
     = [Requested (deleteFromGallery name); Alerted "Failed to delete image"].
Proof.
  intros Hnet. unfold confirmed_delete, handleDelete. cbn. rewrite Hnet. cbn.
  repeat split.
Qed.

Lemma failed_delete_changes_nothing_witness :
  state (confirmed_delete fails "sunset.png" previewing) = previewing
  /\ images (state (confirmed_delete fails "sunset.png" previewing)) = [sunset; harbour]
  /\ selectedImage (state (confirmed_delete fails "sunset.png" previewing)) = Some sunset
  /\ trace (confirmed_delete fails "sunset.png" previewing)
     = [Requested (deleteFromGallery "sunset.png"); Alerted "Failed to delete image"].
Proof.
  exact (failed_delete_changes_nothing fails "sunset.png" previewing _ eq_refl).
Defined.

End GalleryFacts.
